(** * Cebera audio codec: the tone mapping and the receiver state machine

    A shallow embedding of [src/lib/audioCodec.ts].

    Numbers.  JavaScript numbers are modelled by exact values: frequencies
    and durations are rationals ([Q]), byte magnitudes, character codes
    and millisecond clock readings are integers ([Z]).  Every arithmetic
    expression of the codec that is modelled here is evaluated exactly.

    Strings.  A JavaScript string is a sequence of UTF-16 code units; it
    is modelled as the list of its code units.  The one-character strings
    that [text.split('')] and [String.fromCharCode] produce are
    represented by their single code unit. *)

From Stdlib Require Import ZArith QArith Qround Qabs List Bool Lia Lqa.
From Stdlib Require Import String Ascii.
Import ListNotations.

Open Scope Z_scope.

(** ** The JavaScript primitives the codec uses *)

Module JS.

(** A UTF-16 code unit, [0 <= c < 65536]. *)
Definition char16 := Z.

Definition jsstring := list char16.

(** [ToUint16] on an integral number. *)
Definition ToUint16 (n : Z) : char16 := n mod 65536.

(** [String.fromCharCode(n)] for an integral [n]: the one-character
    string whose code unit is [n] reduced modulo 2^16. *)
Definition fromCharCode (n : Z) : char16 := ToUint16 n.

(** [c.charCodeAt(0)] on a one-character string. *)
Definition charCodeAt0 (c : char16) : Z := c.

(** [Math.round]: nearest integer, ties towards +infinity. *)
Definition Math_round (x : Q) : Z := Qfloor (x + (1 # 2)).

(** [Math.abs]. *)
Definition Math_abs (x : Q) : Q := Qabs x.

(** [Math.ceil]. *)
Definition Math_ceil (x : Q) : Z := Qceiling x.

(** [a < b] on numbers. *)
Definition ltb (a b : Q) : bool :=
  match (a ?= b)%Q with Lt => true | _ => false end.

(** Truthiness of a string: every string but the empty one. *)
Definition truthy (s : jsstring) : bool :=
  match s with [] => false | _ :: _ => true end.

(** [text.split('')]: the characters of [text], in order. *)
Definition split_chars (text : jsstring) : list char16 := text.

(** A string literal of the development, as a JavaScript string. *)
Fixpoint of_string (s : string) : jsstring :=
  match s with
  | EmptyString => []
  | String a rest => Z.of_N (N_of_ascii a) :: of_string rest
  end.

End JS.

Import JS.

(** ** Constants *)

Definition SAMPLE_RATE : Q := 48000%Q.
Definition CHAR_DURATION : Q := 5 # 100.
Definition BASE_FREQUENCY : Q := 2000%Q.
Definition FREQUENCY_STEP : Q := 150%Q.
Definition START_MARKER_FREQ : Q := 1800%Q.
Definition END_MARKER_FREQ : Q := 1600%Q.

Definition SIGNAL_THRESHOLD : Z := 150.
Definition FREQUENCY_TOLERANCE : Q := 40%Q.

(** [analyser.fftSize] and [analyser.frequencyBinCount] as
    [startListening] sets them. *)
Definition fftSize : Z := 4096.
Definition frequencyBinCount : Z := fftSize / 2.

(** ** Symbol <-> frequency *)

Definition charToFrequency (char : char16) : Q :=
  (BASE_FREQUENCY + inject_Z (charCodeAt0 char) * FREQUENCY_STEP)%Q.

(** The [charCode] that [frequencyToChar] computes before it builds the
    character. *)
Definition roundedOrdinal (frequency : Q) : Z :=
  Math_round ((frequency - BASE_FREQUENCY) / FREQUENCY_STEP)%Q.

Definition frequencyToChar (frequency : Q) : char16 :=
  let charCode := roundedOrdinal frequency in
  fromCharCode charCode.

(** ** Transmitter *)

(** What [generateTone] is asked for and the length of the buffer it
    allocates.  The sample values themselves (a faded floating-point
    sine) are not modelled. *)
Record Tone := mkTone {
  tone_frequency : Q;
  tone_duration : Q;
  tone_samples : Z
}.

Definition generateTone (sampleRate : Q) (frequency duration : Q) : Tone :=
  {| tone_frequency := frequency;
     tone_duration := duration;
     tone_samples := Math_ceil (duration * sampleRate)%Q |}.

(** [encodeText] as the sequence of buffers handed to [playBuffer], in
    playing order; each [playBuffer] is awaited before the next starts. *)
Definition encodeText (sampleRate : Q) (text : jsstring) : list Tone :=
  let startMarker := generateTone sampleRate START_MARKER_FREQ CHAR_DURATION in
  let tones :=
    map (fun char => generateTone sampleRate (charToFrequency char) CHAR_DURATION)
        (split_chars text) in
  let endMarker := generateTone sampleRate END_MARKER_FREQ CHAR_DURATION in
  [startMarker] ++ tones ++ [endMarker].

(** ** Receiver *)

(** The four variables [startListening] closes over. *)
Record ReceiverState := mkState {
  isReceiving : bool;
  receivedText : jsstring;
  lastFrequency : Q;
  lastFrequencyTime : Z
}.

(** Their values when [startListening] runs at clock reading [t0]. *)
Definition initialState (t0 : Z) : ReceiverState :=
  {| isReceiving := false;
     receivedText := [];
     lastFrequency := 0%Q;
     lastFrequencyTime := t0 |}.

(** The peak search of [analyze]: first bin of largest magnitude. *)
Fixpoint peakScan (dataArray : list Z) (i maxValue maxIndex : Z) : Z * Z :=
  match dataArray with
  | [] => (maxValue, maxIndex)
  | v :: rest =>
      if maxValue <? v then peakScan rest (i + 1) v i
      else peakScan rest (i + 1) maxValue maxIndex
  end.

Definition isStartMarker (dominantFrequency : Q) : bool :=
  ltb (Math_abs (dominantFrequency - START_MARKER_FREQ)) FREQUENCY_TOLERANCE.

Definition isEndMarker (dominantFrequency : Q) : bool :=
  ltb (Math_abs (dominantFrequency - END_MARKER_FREQ)) FREQUENCY_TOLERANCE.

(** The range test on the decoded character. *)
Definition printable (char : char16) : bool :=
  (32 <=? charCodeAt0 char) && (charCodeAt0 char <=? 126).

(** The decision part of [analyze] (the [if (maxValue > SIGNAL_THRESHOLD)]
    block): the new state and what is pushed on [decoder$], if anything.
    [now] is what [Date.now()] returns during this tick, in whole
    milliseconds.  [CHAR_DURATION * 1000 * 0.8] is 40, here and in
    double arithmetic. *)
Definition decide (st : ReceiverState) (dominantFrequency : Q)
    (maxValue : Z) (now : Z) : ReceiverState * option jsstring :=
  if SIGNAL_THRESHOLD <? maxValue then
    if isStartMarker dominantFrequency then
      ({| isReceiving := true;
          receivedText := [];
          lastFrequency := lastFrequency st;
          lastFrequencyTime := lastFrequencyTime st |}, None)
    else if isEndMarker dominantFrequency then
      ({| isReceiving := false;
          receivedText := receivedText st;
          lastFrequency := lastFrequency st;
          lastFrequencyTime := lastFrequencyTime st |},
       if truthy (receivedText st) then Some (receivedText st) else None)
    else if isReceiving st
            && ltb FREQUENCY_TOLERANCE
                 (Math_abs (dominantFrequency - lastFrequency st)) then
      if ltb (CHAR_DURATION * 1000 * (8 # 10))%Q
             (inject_Z (now - lastFrequencyTime st)) then
        let char := frequencyToChar dominantFrequency in
        if printable char then
          ({| isReceiving := isReceiving st;
              receivedText := receivedText st ++ [char];
              lastFrequency := dominantFrequency;
              lastFrequencyTime := now |}, None)
        else (st, None)
      else (st, None)
    else (st, None)
  else (st, None).

(** One call of [analyze]: peak search over the byte spectrum, bin to
    Hz, then the decision. *)
Definition analyze (sampleRate : Q) (st : ReceiverState)
    (dataArray : list Z) (now : Z) : ReceiverState * option jsstring :=
  let '(maxValue, maxIndex) := peakScan dataArray 0 0 0 in
  let dominantFrequency :=
    (inject_Z maxIndex * sampleRate / inject_Z fftSize)%Q in
  decide st dominantFrequency maxValue now.

(** The dominant frequency [analyze] computes from a spectrum. *)
Definition dominantFrequencyOf (sampleRate : Q) (dataArray : list Z) : Q :=
  (inject_Z (snd (peakScan dataArray 0 0 0)) * sampleRate / inject_Z fftSize)%Q.

(** A reading handed to the decision: dominant frequency, magnitude and
    the clock at that tick. *)
Record Tick := mkTick {
  tick_frequency : Q;
  tick_magnitude : Z;
  tick_time : Z
}.

Definition step (st : ReceiverState) (k : Tick) : ReceiverState * option jsstring :=
  decide st (tick_frequency k) (tick_magnitude k) (tick_time k).

(** The receiver over a sequence of ticks: final state and the events
    delivered on [decoder$], oldest first. *)
Fixpoint listen (st : ReceiverState) (ticks : list Tick)
  : ReceiverState * list jsstring :=
  match ticks with
  | [] => (st, [])
  | k :: rest =>
      let '(st1, ev) := step st k in
      let '(st2, evs) := listen st1 rest in
      (st2, match ev with Some frame => frame :: evs | None => evs end)
  end.

Definition emitted (st : ReceiverState) (ticks : list Tick) : list jsstring :=
  snd (listen st ticks).

Definition finalState (st : ReceiverState) (ticks : list Tick) : ReceiverState :=
  fst (listen st ticks).

(** States the receiver can be in: the initial one and whatever a tick
    makes of a reachable one. *)
Inductive reachable : ReceiverState -> Prop :=
| reachable_init : forall t0, reachable (initialState t0)
| reachable_step : forall st k, reachable st -> reachable (fst (step st k)).

(** ** Vocabulary of the properties *)

(** A tick that passes the [maxValue > SIGNAL_THRESHOLD] test. *)
Definition loud (k : Tick) : Prop := SIGNAL_THRESHOLD < tick_magnitude k.

Definition startMarkerTick (k : Tick) : Prop :=
  loud k /\
  (Qabs (tick_frequency k - START_MARKER_FREQ) < FREQUENCY_TOLERANCE)%Q.

Definition endMarkerTick (k : Tick) : Prop :=
  loud k /\
  (Qabs (tick_frequency k - END_MARKER_FREQ) < FREQUENCY_TOLERANCE)%Q.

(** A frequency whose rounded ordinal is a printable ASCII code. *)
Definition inBand (f : Q) : Prop := 32 <= roundedOrdinal f <= 126.

Definition printableText (text : jsstring) : Prop :=
  Forall (fun c => 32 <= charCodeAt0 c <= 126) text.

(** No character of the text is followed by the same character. *)
Fixpoint noRepeat (text : jsstring) : Prop :=
  match text with
  | c1 :: rest =>
      match rest with
      | c2 :: _ => c1 <> c2
      | [] => True
      end /\ noRepeat rest
  | [] => True
  end.

(** A tick reads a tone when it reports the frequency of the tone. *)
Definition reads (k : Tick) (t : Tone) : Prop :=
  (tick_frequency k == tone_frequency t)%Q.

(** The noise-free readings of a tone sequence: one loud tick per tone,
    in order, reporting exactly the frequency of the tone. *)
Definition readingsOf (tones : list Tone) (ticks : list Tick) : Prop :=
  Forall2 reads ticks tones /\ Forall loud ticks.

(** [0.8 * CHAR_DURATION], in the milliseconds of the clock. *)
Definition acceptGap : Q := (CHAR_DURATION * 1000 * (8 # 10))%Q.

(** Every tick comes more than [acceptGap] after the one before it,
    the first one after [prev]. *)
Fixpoint spacedAfter (prev : Z) (ticks : list Tick) : Prop :=
  match ticks with
  | [] => True
  | k :: rest =>
      (acceptGap < inject_Z (tick_time k - prev))%Q /\
      spacedAfter (tick_time k) rest
  end.

(** Ticks of a listener started at [t0]: none before [t0], consecutive
    ones more than [acceptGap] apart. *)
Definition wellTimed (t0 : Z) (ticks : list Tick) : Prop :=
  match ticks with
  | [] => True
  | k :: rest => t0 <= tick_time k /\ spacedAfter (tick_time k) rest
  end.

(** A tick that comes late enough after the last accepted symbol. *)
Definition lateEnough (st : ReceiverState) (k : Tick) : Prop :=
  (acceptGap < inject_Z (tick_time k - lastFrequencyTime st))%Q.

(** A tone held over several ticks: every tick is loud and reports the
    same dominant frequency. *)
Definition sustained (f : Q) (ticks : list Tick) : Prop :=
  Forall (fun k => (tick_frequency k == f)%Q /\ loud k) ticks.

(** ** Scenarios *)

(** The four readings of the frame "HI", 50 ms apart. *)
Definition frameHI : list Tick :=
  [ mkTick 1800 200 1000;
    mkTick (charToFrequency 72) 200 1050;
    mkTick (charToFrequency 73) 200 1100;
    mkTick 1600 200 1150 ].

(** The readings of the frame "LL". *)
Definition frameLL : list Tick :=
  [ mkTick 1800 200 1000;
    mkTick (charToFrequency 76) 200 1050;
    mkTick (charToFrequency 76) 200 1100;
    mkTick 1600 200 1150 ].

(** The readings of the frame "IH", some time after [frameHI]. *)
Definition frameIH : list Tick :=
  [ mkTick 1800 200 3000;
    mkTick (charToFrequency 73) 200 3050;
    mkTick (charToFrequency 72) 200 3100;
    mkTick 1600 200 3150 ].

(** The readings of the frame of the empty text. *)
Definition frameEmpty : list Tick :=
  [ mkTick 1800 200 1000; mkTick 1600 200 1050 ].

(** A receiver that has seen a Start Marker and accepted 'L' at 1050 ms. *)
Definition afterL : ReceiverState :=
  finalState (initialState 0)
    [ mkTick 1800 200 1000; mkTick (charToFrequency 76) 200 1050 ].

(** A receiver in the middle of a frame, with "A" in its buffer. *)
Definition midFrameA : ReceiverState :=
  mkState true (of_string "A") (charToFrequency 65) 1050.

(** ** Tone buffers *)

(** [fadeSamples] of [generateTone]. *)
Definition fadeSamplesOf (sampleRate : Q) : Z :=
  Math_ceil ((2 # 1000) * sampleRate)%Q.

(** The factor [fade] that [generateTone] applies to sample [i] of a
    buffer of [samples] samples.  It is read for [0 <= i < samples]; with
    [fadeSamples = 0] the source divides by zero, which is not modelled. *)
Definition fade (samples fadeSamples i : Z) : Q :=
  if i <? fadeSamples then (inject_Z i / inject_Z fadeSamples)%Q
  else if samples - fadeSamples <? i
       then (inject_Z (samples - i) / inject_Z fadeSamples)%Q
       else 1%Q.

(** [buffer.duration] of the buffer of a tone, in seconds. *)
Definition bufferDuration (sampleRate : Q) (t : Tone) : Q :=
  (inject_Z (tone_samples t) / sampleRate)%Q.

(** The delay [playBuffer] hands to [setTimeout], in milliseconds. *)
Definition playBufferWait (sampleRate : Q) (t : Tone) : Q :=
  (bufferDuration sampleRate t * 1000)%Q.

(** The delays [encodeText] waits for, one after the other. *)
Definition encodeTextWait (sampleRate : Q) (text : jsstring) : Q :=
  fold_right Qplus 0%Q (map (playBufferWait sampleRate) (encodeText sampleRate text)).

(** ** The listening loop *)

(** The reading [analyze] takes from a spectrum at clock [now]. *)
Definition tickOf (sampleRate : Q) (dataArray : list Z) (now : Z) : Tick :=
  {| tick_frequency := dominantFrequencyOf sampleRate dataArray;
     tick_magnitude := fst (peakScan dataArray 0 0 0);
     tick_time := now |}.

(** The two fields of the codec object that the loop reads: whether
    [mediaStream] and [analyser] are set (not [null]). *)
Record Codec := mkCodec {
  mediaStream : bool;
  analyser : bool
}.

(** [stopListening]: the new fields, and whether the tracks of the
    stream were stopped. *)
Definition stopListening (c : Codec) : Codec * bool :=
  let stopped := mediaStream c in
  ({| mediaStream := false; analyser := false |}, stopped).

Definition getAnalyser (c : Codec) : bool := analyser c.

(** What happens to a listener: an animation frame arrives, with the
    spectrum the analyser would report and the clock, or
    [stopListening] is called. *)
Inductive Event :=
| AnimationFrame (dataArray : list Z) (now : Z)
| StopListening.

(** A listener: the codec fields, the variables of the closure, and
    whether a call of [analyze] is scheduled. *)
Record Listener := mkListener {
  codec : Codec;
  closure : ReceiverState;
  scheduled : bool
}.

(** The listener as [startListening] leaves it at clock [t0]; the first
    call of [analyze] is the next thing to happen. *)
Definition startedListener (t0 : Z) : Listener :=
  {| codec := {| mediaStream := true; analyser := true |};
     closure := initialState t0;
     scheduled := true |}.

(** One event.  A scheduled [analyze] runs at an animation frame: on a
    [null] analyser [this.analyser!.getByteFrequencyData] throws and
    nothing is scheduled again; otherwise the spectrum is analysed and
    the next call is scheduled when [mediaStream] is still set. *)
Definition onEvent (sampleRate : Q) (l : Listener) (e : Event)
  : Listener * option jsstring :=
  match e with
  | StopListening =>
      ({| codec := fst (stopListening (codec l));
          closure := closure l;
          scheduled := scheduled l |}, None)
  | AnimationFrame dataArray now =>
      if scheduled l then
        if analyser (codec l) then
          let '(st, ev) := analyze sampleRate (closure l) dataArray now in
          ({| codec := codec l;
              closure := st;
              scheduled := mediaStream (codec l) |}, ev)
        else
          ({| codec := codec l; closure := closure l; scheduled := false |},
           None)
      else (l, None)
  end.

Fixpoint runLoop (sampleRate : Q) (l : Listener) (events : list Event)
  : Listener * list jsstring :=
  match events with
  | [] => (l, [])
  | e :: rest =>
      let '(l1, ev) := onEvent sampleRate l e in
      let '(l2, evs) := runLoop sampleRate l1 rest in
      (l2, match ev with Some frame => frame :: evs | None => evs end)
  end.

(** The spectra of a list of animation frames, as ticks. *)
Fixpoint ticksOf (sampleRate : Q) (frames : list (list Z * Z)) : list Tick :=
  match frames with
  | [] => []
  | (dataArray, now) :: rest =>
      tickOf sampleRate dataArray now :: ticksOf sampleRate rest
  end.

Definition framesAsEvents (frames : list (list Z * Z)) : list Event :=
  map (fun f => AnimationFrame (fst f) (snd f)) frames.

(** ** Vocabulary of the further properties *)

(** A loud tick in the End-Marker window, as a test. *)
Definition isLoudEndMarker (k : Tick) : bool :=
  (SIGNAL_THRESHOLD <? tick_magnitude k) && isEndMarker (tick_frequency k).

(** A loud tick in the Start-Marker window, as a test. *)
Definition isLoudStartMarker (k : Tick) : bool :=
  (SIGNAL_THRESHOLD <? tick_magnitude k) && isStartMarker (tick_frequency k).

(** A text with every run of equal characters reduced to one character:
    [squeezeAfter p text] drops the characters equal to the one before
    them, [p] being the character before the text. *)
Fixpoint squeezeAfter (p : char16) (text : jsstring) : jsstring :=
  match text with
  | [] => []
  | c :: rest =>
      if c =? p then squeezeAfter p rest else c :: squeezeAfter c rest
  end.

Definition squeeze (text : jsstring) : jsstring :=
  match text with
  | [] => []
  | c :: rest => c :: squeezeAfter c rest
  end.

(** ** The caller in the user interface *)

(** The code units that [String.prototype.trim] strips: white space and
    line terminators. *)
Definition isWhiteSpace (c : char16) : bool :=
  ((9 <=? c) && (c <=? 13)) || (c =? 32) || (c =? 160) || (c =? 5760)
  || ((8192 <=? c) && (c <=? 8202)) || (c =? 8232) || (c =? 8233)
  || (c =? 8239) || (c =? 8287) || (c =? 12288) || (c =? 65279).

Fixpoint trimStart (s : jsstring) : jsstring :=
  match s with
  | [] => []
  | c :: rest => if isWhiteSpace c then trimStart rest else s
  end.

Definition trimEnd (s : jsstring) : jsstring := rev (trimStart (rev s)).

Definition trim (s : jsstring) : jsstring := trimEnd (trimStart s).

(** The state of [App] that [handleSend] touches: the input field and
    the message list, each message with the clock string it got. *)
Record AppState := mkApp {
  inputText : jsstring;
  messages : list (jsstring * jsstring)
}.

(** [handleSend] when [encodeText] does not fail: the new state and the
    tones played, [None] when it returns at its guard.  [timestamp] is
    what [new Date().toLocaleTimeString()] returns. *)
Definition handleSend (sampleRate : Q) (timestamp : jsstring) (app : AppState)
  : AppState * option (list Tone) :=
  if negb (truthy (trim (inputText app))) then (app, None)
  else
    ({| inputText := [];
        messages := messages app ++ [(inputText app, timestamp)] |},
     Some (encodeText sampleRate (inputText app))).

(** * Properties *)

(** ** Facts about the JavaScript primitives *)

Section Primitives.

Lemma ltb_lt (a b : Q) : ltb a b = true <-> (a < b)%Q.
Proof.
  unfold ltb. rewrite Qlt_alt.
  destruct (a ?= b)%Q; split; congruence.
Qed.

Lemma ltb_ge (a b : Q) : ltb a b = false <-> (b <= a)%Q.
Proof.
  rewrite <- Bool.not_true_iff_false, ltb_lt. split.
  - apply Qnot_lt_le.
  - apply Qle_not_lt.
Qed.

Lemma inject_Z_succ (n : Z) : (inject_Z (n + 1) == inject_Z n + 1)%Q.
Proof. rewrite inject_Z_plus. reflexivity. Qed.

(** [Math.round x] is the integer within a half of [x], the upper one
    at a tie. *)
Lemma Math_round_bounds (x : Q) :
  (inject_Z (Math_round x) - (1 # 2) <= x
   < inject_Z (Math_round x) + (1 # 2))%Q.
Proof.
  unfold Math_round.
  pose proof (Qfloor_le (x + (1 # 2))) as Hlo.
  pose proof (Qlt_floor (x + (1 # 2))) as Hhi.
  rewrite inject_Z_succ in Hhi. split; lra.
Qed.

Lemma Math_round_unique (x : Q) (n : Z) :
  (inject_Z n - (1 # 2) <= x < inject_Z n + (1 # 2))%Q ->
  Math_round x = n.
Proof.
  intros [Hlo Hhi]. destruct (Math_round_bounds x) as [Rlo Rhi].
  assert (H1 : (inject_Z n < inject_Z (Math_round x + 1))%Q)
    by (rewrite inject_Z_succ; lra).
  assert (H2 : (inject_Z (Math_round x) < inject_Z (n + 1))%Q)
    by (rewrite inject_Z_succ; lra).
  rewrite <- Zlt_Qlt in H1, H2. lia.
Qed.

Lemma truthy_true (s : jsstring) : truthy s = true <-> s <> [].
Proof. destruct s; simpl; split; congruence. Qed.

End Primitives.

(** ** The guards of [analyze], as inequalities *)

Section Guards.

Lemma isStartMarker_iff (f : Q) :
  isStartMarker f = true <->
  (Qabs (f - START_MARKER_FREQ) < FREQUENCY_TOLERANCE)%Q.
Proof. unfold isStartMarker, Math_abs. apply ltb_lt. Qed.

Lemma isEndMarker_iff (f : Q) :
  isEndMarker f = true <->
  (Qabs (f - END_MARKER_FREQ) < FREQUENCY_TOLERANCE)%Q.
Proof. unfold isEndMarker, Math_abs. apply ltb_lt. Qed.

Lemma startMarker_band (f : Q) :
  (Qabs (f - START_MARKER_FREQ) < FREQUENCY_TOLERANCE)%Q <->
  (1760 < f < 1840)%Q.
Proof.
  unfold START_MARKER_FREQ, FREQUENCY_TOLERANCE.
  rewrite Qabs_Qlt_condition. split; intros [H1 H2]; split; lra.
Qed.

Lemma endMarker_band (f : Q) :
  (Qabs (f - END_MARKER_FREQ) < FREQUENCY_TOLERANCE)%Q <->
  (1560 < f < 1640)%Q.
Proof.
  unfold END_MARKER_FREQ, FREQUENCY_TOLERANCE.
  rewrite Qabs_Qlt_condition. split; intros [H1 H2]; split; lra.
Qed.

Lemma isStartMarker_false (f : Q) :
  isStartMarker f = false <-> ~ (1760 < f < 1840)%Q.
Proof.
  rewrite <- Bool.not_true_iff_false, isStartMarker_iff, startMarker_band.
  tauto.
Qed.

Lemma isEndMarker_false (f : Q) :
  isEndMarker f = false <-> ~ (1560 < f < 1640)%Q.
Proof.
  rewrite <- Bool.not_true_iff_false, isEndMarker_iff, endMarker_band.
  tauto.
Qed.

(** The two marker windows do not overlap, so the order of the first
    two tests of [analyze] does not matter. *)
Lemma endMarker_not_startMarker (f : Q) :
  isEndMarker f = true -> isStartMarker f = false.
Proof.
  rewrite isEndMarker_iff, endMarker_band, isStartMarker_false.
  intros [H1 H2] [H3 H4]. lra.
Qed.

(** [CHAR_DURATION * 1000 * 0.8] is 40 ms. *)
Lemma timeGuard_iff (elapsed : Z) :
  ltb (CHAR_DURATION * 1000 * (8 # 10))%Q (inject_Z elapsed) = true <->
  40 < elapsed.
Proof.
  rewrite ltb_lt.
  assert (E : (CHAR_DURATION * 1000 * (8 # 10) == inject_Z 40)%Q)
    by reflexivity.
  rewrite E, <- Zlt_Qlt. reflexivity.
Qed.

Lemma timeGuard_false (elapsed : Z) :
  ltb (CHAR_DURATION * 1000 * (8 # 10))%Q (inject_Z elapsed) = false <->
  elapsed <= 40.
Proof.
  rewrite <- Bool.not_true_iff_false, timeGuard_iff. lia.
Qed.

Lemma farFrom_iff (f g : Q) :
  ltb FREQUENCY_TOLERANCE (Math_abs (f - g)) = true <->
  (FREQUENCY_TOLERANCE < Qabs (f - g))%Q.
Proof. apply ltb_lt. Qed.

Lemma farFrom_self (f : Q) :
  ltb FREQUENCY_TOLERANCE (Math_abs (f - f)) = false.
Proof.
  apply ltb_ge. unfold Math_abs, FREQUENCY_TOLERANCE.
  apply Qabs_Qle_condition. split; lra.
Qed.

Lemma printable_iff (c : char16) :
  printable c = true <-> 32 <= c <= 126.
Proof.
  unfold printable, charCodeAt0.
  rewrite Bool.andb_true_iff, !Z.leb_le. tauto.
Qed.

End Guards.

(** ** Symbol frequencies *)

Section SymbolBand.

Lemma roundedOrdinal_charToFrequency (c : char16) :
  roundedOrdinal (charToFrequency c) = c.
Proof.
  unfold roundedOrdinal, charToFrequency, charCodeAt0,
    BASE_FREQUENCY, FREQUENCY_STEP.
  apply Math_round_unique.
  assert (E : ((2000 + inject_Z c * 150 - 2000) / 150 == inject_Z c)%Q)
    by field.
  rewrite E. split; lra.
Qed.

(** Where a frequency lies, given its rounded ordinal. *)
Lemma roundedOrdinal_bounds (f : Q) :
  (2000 + (inject_Z (roundedOrdinal f) - (1 # 2)) * 150 <= f
   < 2000 + (inject_Z (roundedOrdinal f) + (1 # 2)) * 150)%Q.
Proof.
  unfold roundedOrdinal, BASE_FREQUENCY, FREQUENCY_STEP.
  destruct (Math_round_bounds ((f - 2000) / 150)) as [Hlo Hhi].
  assert (E : (f == 2000 + ((f - 2000) / 150) * 150)%Q) by field.
  split; lra.
Qed.

Lemma Zle_inject (a b : Z) : a <= b -> (inject_Z a <= inject_Z b)%Q.
Proof. intros H. rewrite <- Zle_Qle. exact H. Qed.

(** A frequency whose rounded ordinal is printable is above both
    marker windows. *)
Lemma inBand_above_markers (f : Q) :
  32 <= roundedOrdinal f <= 126 -> (6725 <= f)%Q.
Proof.
  intros [Hlo _]. destruct (roundedOrdinal_bounds f) as [Flo _].
  apply Zle_inject in Hlo. change (inject_Z 32) with 32%Q in Hlo. lra.
Qed.

Lemma inBand_not_marker (f : Q) :
  32 <= roundedOrdinal f <= 126 ->
  isStartMarker f = false /\ isEndMarker f = false.
Proof.
  intros H. apply inBand_above_markers in H.
  rewrite isStartMarker_false, isEndMarker_false.
  split; intros [H1 H2]; lra.
Qed.

Lemma inBand_printable (f : Q) :
  32 <= roundedOrdinal f <= 126 ->
  frequencyToChar f = roundedOrdinal f /\ printable (frequencyToChar f) = true.
Proof.
  intros H. unfold frequencyToChar, fromCharCode, ToUint16.
  rewrite Z.mod_small by lia. split; [reflexivity|].
  apply printable_iff. exact H.
Qed.

End SymbolBand.

(** ** The branches of [analyze] *)

Section Branches.

Variables (st : ReceiverState) (f : Q) (m now : Z).

Lemma decide_quiet :
  m <= SIGNAL_THRESHOLD -> decide st f m now = (st, None).
Proof.
  intros H. unfold decide.
  destruct (Z.ltb_spec SIGNAL_THRESHOLD m); [lia | reflexivity].
Qed.

Hypothesis loud : SIGNAL_THRESHOLD < m.

Lemma decide_start :
  isStartMarker f = true ->
  decide st f m now =
    ({| isReceiving := true;
        receivedText := [];
        lastFrequency := lastFrequency st;
        lastFrequencyTime := lastFrequencyTime st |}, None).
Proof.
  intros Hs. unfold decide.
  apply Z.ltb_lt in loud. rewrite loud, Hs. reflexivity.
Qed.

Lemma decide_end :
  isEndMarker f = true ->
  decide st f m now =
    ({| isReceiving := false;
        receivedText := receivedText st;
        lastFrequency := lastFrequency st;
        lastFrequencyTime := lastFrequencyTime st |},
     if truthy (receivedText st) then Some (receivedText st) else None).
Proof.
  intros He. unfold decide.
  apply Z.ltb_lt in loud.
  rewrite loud, (endMarker_not_startMarker f He), He. reflexivity.
Qed.

Hypothesis notStart : isStartMarker f = false.
Hypothesis notEnd : isEndMarker f = false.

Lemma decide_idle :
  isReceiving st = false -> decide st f m now = (st, None).
Proof.
  intros Hr. unfold decide.
  apply Z.ltb_lt in loud. rewrite loud, notStart, notEnd, Hr. reflexivity.
Qed.

Lemma decide_held :
  ltb FREQUENCY_TOLERANCE (Math_abs (f - lastFrequency st)) = false ->
  decide st f m now = (st, None).
Proof.
  intros Hn. unfold decide.
  apply Z.ltb_lt in loud.
  rewrite loud, notStart, notEnd, Hn, Bool.andb_false_r. reflexivity.
Qed.

Lemma decide_early :
  now - lastFrequencyTime st <= 40 -> decide st f m now = (st, None).
Proof.
  intros Ht. unfold decide.
  apply Z.ltb_lt in loud. apply timeGuard_false in Ht.
  rewrite loud, notStart, notEnd, Ht.
  destruct (isReceiving st && _); reflexivity.
Qed.

Lemma decide_unprintable :
  printable (frequencyToChar f) = false -> decide st f m now = (st, None).
Proof.
  intros Hp. unfold decide.
  apply Z.ltb_lt in loud.
  rewrite loud, notStart, notEnd, Hp.
  destruct (isReceiving st && _); [|reflexivity].
  destruct (ltb _ _); reflexivity.
Qed.

Lemma decide_accept :
  isReceiving st = true ->
  (FREQUENCY_TOLERANCE < Qabs (f - lastFrequency st))%Q ->
  40 < now - lastFrequencyTime st ->
  printable (frequencyToChar f) = true ->
  decide st f m now =
    ({| isReceiving := true;
        receivedText := receivedText st ++ [frequencyToChar f];
        lastFrequency := f;
        lastFrequencyTime := now |}, None).
Proof.
  intros Hr Hfar Ht Hp. unfold decide.
  apply Z.ltb_lt in loud.
  apply farFrom_iff in Hfar. apply timeGuard_iff in Ht.
  rewrite loud, notStart, notEnd, Hr, Hfar, Ht, Hp. reflexivity.
Qed.

End Branches.

(** ** Running the receiver over several ticks *)

Section Listening.

Lemma listen_cons (st : ReceiverState) (k : Tick) (rest : list Tick) :
  listen st (k :: rest) =
    (finalState (fst (step st k)) rest,
     match snd (step st k) with
     | Some frame => frame :: emitted (fst (step st k)) rest
     | None => emitted (fst (step st k)) rest
     end).
Proof.
  unfold finalState, emitted. simpl.
  destruct (step st k) as [st1 ev]. simpl.
  destruct (listen st1 rest) as [st2 evs]. reflexivity.
Qed.

Lemma finalState_cons st k rest :
  finalState st (k :: rest) = finalState (fst (step st k)) rest.
Proof. unfold finalState at 1. rewrite listen_cons. reflexivity. Qed.

Lemma emitted_cons st k rest :
  emitted st (k :: rest) =
    match snd (step st k) with
    | Some frame => frame :: emitted (fst (step st k)) rest
    | None => emitted (fst (step st k)) rest
    end.
Proof. unfold emitted at 1. rewrite listen_cons. reflexivity. Qed.

Lemma finalState_app st a b :
  finalState st (a ++ b) = finalState (finalState st a) b.
Proof.
  revert st. induction a as [|k a IH]; intros st; [reflexivity|].
  rewrite <- app_comm_cons, !finalState_cons. apply IH.
Qed.

Lemma emitted_app st a b :
  emitted st (a ++ b) = emitted st a ++ emitted (finalState st a) b.
Proof.
  revert st. induction a as [|k a IH]; intros st; [reflexivity|].
  rewrite <- app_comm_cons, !emitted_cons, finalState_cons, IH.
  destruct (snd (step st k)); reflexivity.
Qed.

(** Every state that [listen] passes through is reachable. *)
Lemma reachable_finalState st ticks :
  reachable st -> reachable (finalState st ticks).
Proof.
  revert st. induction ticks as [|k rest IH]; intros st Hst.
  - exact Hst.
  - rewrite finalState_cons. apply IH. apply reachable_step. exact Hst.
Qed.

End Listening.

(** ** Symbol mapping *)

Section Mapping.

Lemma acceptGap_iff (elapsed : Z) :
  (acceptGap < inject_Z elapsed)%Q <-> 40 < elapsed.
Proof. unfold acceptGap. rewrite <- ltb_lt. apply timeGuard_iff. Qed.

Lemma charToFrequency_inBand (c : char16) :
  32 <= c <= 126 -> inBand (charToFrequency c).
Proof.
  intros H. unfold inBand. rewrite roundedOrdinal_charToFrequency. exact H.
Qed.

Lemma frequencyToChar_charToFrequency (c : char16) :
  32 <= c <= 126 -> frequencyToChar (charToFrequency c) = c.
Proof.
  intros H.
  destruct (inBand_printable _ (charToFrequency_inBand c H)) as [E _].
  rewrite E. apply roundedOrdinal_charToFrequency.
Qed.

Lemma charToFrequency_value (c : char16) :
  (charToFrequency c == 2000 + inject_Z c * 150)%Q.
Proof. reflexivity. Qed.

End Mapping.

(** C3, as the code has it: the mapping is
    [BASE_FREQUENCY + code * FREQUENCY_STEP] with [BASE_FREQUENCY] 2000 Hz
    and [FREQUENCY_STEP] 150 Hz, and over the printable codes it runs
    from 6800 Hz at code 32 up to 20900 Hz at code 126. *)
Theorem charToFrequency_band (c : char16) :
  32 <= c <= 126 ->
  (charToFrequency c == BASE_FREQUENCY + inject_Z c * FREQUENCY_STEP)%Q /\
  (BASE_FREQUENCY == 2000)%Q /\ (FREQUENCY_STEP == 150)%Q /\
  (6800 <= charToFrequency c <= 20900)%Q /\
  (charToFrequency 32%Z == 6800)%Q /\
  (charToFrequency 126%Z == 20900)%Q.
Proof.
  intros [Hlo Hhi].
  apply Zle_inject in Hlo, Hhi.
  change (inject_Z 32) with 32%Q in Hlo.
  change (inject_Z 126) with 126%Q in Hhi.
  pose proof (charToFrequency_value c) as E.
  repeat split; try reflexivity; lra.
Qed.

Lemma charToFrequency_band_witness :
  (6800 <= charToFrequency 72%Z <= 20900)%Q.
Proof.
  apply (charToFrequency_band 72). lia.
Defined.

(** C3 as stated fails: the frequency of the character with code 32 is
    6800 Hz, not 2000 Hz, and that of code 126 is 20900 Hz. *)
Lemma charToFrequency_32_not_2000 :
  ~ (charToFrequency 32%Z == 2000)%Q /\ ~ (charToFrequency 126%Z <= 17000)%Q.
Proof.
  split.
  - intros H. vm_compute in H. discriminate.
  - apply Qlt_not_le. reflexivity.
Qed.

(** C5: for every ordinal [o] in [32,126], the character decoded from
    [charToFrequency o] has code [o]; the rounded quotient itself is [o]. *)
Theorem ordinal_roundtrip (o : Z) :
  32 <= o <= 126 ->
  charCodeAt0 (frequencyToChar (charToFrequency o)) = o /\
  Math_round
    ((BASE_FREQUENCY + inject_Z o * FREQUENCY_STEP - BASE_FREQUENCY)
     / FREQUENCY_STEP)%Q = o.
Proof.
  intros H. split.
  - unfold charCodeAt0. apply frequencyToChar_charToFrequency. exact H.
  - apply (roundedOrdinal_charToFrequency o).
Qed.

Lemma ordinal_roundtrip_witness :
  charCodeAt0 (frequencyToChar (charToFrequency 65%Z)) = 65.
Proof.
  apply (ordinal_roundtrip 65). lia.
Defined.

(** ** Marker ticks *)

Section Markers.

Lemma step_startMarker (st : ReceiverState) (k : Tick) :
  startMarkerTick k ->
  step st k =
    ({| isReceiving := true;
        receivedText := [];
        lastFrequency := lastFrequency st;
        lastFrequencyTime := lastFrequencyTime st |}, None).
Proof.
  intros [Hloud Hnear]. unfold step.
  apply decide_start; [exact Hloud | apply isStartMarker_iff; exact Hnear].
Qed.

Lemma step_endMarker (st : ReceiverState) (k : Tick) :
  endMarkerTick k ->
  step st k =
    ({| isReceiving := false;
        receivedText := receivedText st;
        lastFrequency := lastFrequency st;
        lastFrequencyTime := lastFrequencyTime st |},
     if truthy (receivedText st) then Some (receivedText st) else None).
Proof.
  intros [Hloud Hnear]. unfold step.
  apply decide_end; [exact Hloud | apply isEndMarker_iff; exact Hnear].
Qed.

(** What an End-Marker tick does: the receiver goes idle and the
    buffer is delivered exactly when it is not empty.  The buffer
    itself is kept. *)
Lemma endMarker_effect (st : ReceiverState) (k : Tick) :
  endMarkerTick k ->
  isReceiving (fst (step st k)) = false /\
  receivedText (fst (step st k)) = receivedText st /\
  (receivedText st <> [] -> snd (step st k) = Some (receivedText st)) /\
  (receivedText st = [] -> snd (step st k) = None).
Proof.
  intros H. rewrite (step_endMarker st k H). simpl.
  repeat split.
  - intros Hne. apply truthy_true in Hne. rewrite Hne. reflexivity.
  - intros ->. reflexivity.
Qed.

(** Start then End, from any state, delivers nothing. *)
Lemma start_then_end_silent (st : ReceiverState) (k1 k2 : Tick) :
  startMarkerTick k1 -> endMarkerTick k2 -> emitted st [k1; k2] = [].
Proof.
  intros H1 H2.
  rewrite emitted_cons, (step_startMarker st k1 H1). simpl.
  rewrite emitted_cons, (step_endMarker _ k2 H2). reflexivity.
Qed.

End Markers.

(** C1 on the code: a frame is received and the End Marker is seen on
    two ticks in a row.  The first End-Marker tick delivers the frame and
    leaves it in the buffer, so the second one delivers it again. *)
Theorem endMarker_twice_delivers_twice :
  emitted (initialState 0) frameHI = [of_string "HI"] /\
  isReceiving (finalState (initialState 0) frameHI) = false /\
  receivedText (finalState (initialState 0) frameHI) = of_string "HI" /\
  emitted (finalState (initialState 0) frameHI) [mkTick 1600 200 1167]
    = [of_string "HI"] /\
  emitted (initialState 0) (frameHI ++ [mkTick 1600 200 1167])
    = [of_string "HI"; of_string "HI"].
Proof.
  vm_compute. repeat split.
Qed.

(** What the Start-Marker branch assigns: a loud tick within the
    tolerance of the Start Marker sets the receiving flag and empties
    the buffer, whatever the state was, and delivers nothing; the branch
    does not touch the last accepted frequency and time. *)
Lemma startMarker_rearms (st : ReceiverState) (f : Q) (m now : Z) :
  SIGNAL_THRESHOLD < m ->
  (Qabs (f - START_MARKER_FREQ) < FREQUENCY_TOLERANCE)%Q ->
  decide st f m now =
    ({| isReceiving := true;
        receivedText := [];
        lastFrequency := lastFrequency st;
        lastFrequencyTime := lastFrequencyTime st |}, None).
Proof.
  intros Hloud Hnear.
  apply decide_start; [exact Hloud | apply isStartMarker_iff; exact Hnear].
Qed.

Lemma startMarker_rearms_witness :
  decide midFrameA 1800 200 2000 =
    (mkState true [] (charToFrequency 65%Z) 1050, None).
Proof.
  apply (startMarker_rearms midFrameA 1800 200 2000).
  - unfold SIGNAL_THRESHOLD. lia.
  - reflexivity.
Defined.

(** After the frame "HI" has been received, a Start Marker leaves the
    last accepted frequency and time where the frame put them (12950 Hz,
    1100 ms), not at the values [startListening] gave them (0 Hz,
    0 ms). *)
Lemma startMarker_keeps_last_accepted :
  isReceiving
    (finalState (initialState 0) (frameHI ++ [mkTick 1800 200 2000])) = true /\
  receivedText
    (finalState (initialState 0) (frameHI ++ [mkTick 1800 200 2000])) = [] /\
  (lastFrequency
     (finalState (initialState 0) (frameHI ++ [mkTick 1800 200 2000]))
   == 12950)%Q /\
  lastFrequencyTime
    (finalState (initialState 0) (frameHI ++ [mkTick 1800 200 2000])) = 1100 /\
  ~ (lastFrequency
       (finalState (initialState 0) (frameHI ++ [mkTick 1800 200 2000]))
     == lastFrequency (initialState 0))%Q /\
  lastFrequencyTime
    (finalState (initialState 0) (frameHI ++ [mkTick 1800 200 2000]))
  <> lastFrequencyTime (initialState 0).
Proof.
  vm_compute. repeat split; discriminate.
Qed.

(** C8: from every reachable state, a Start-Marker tick followed at once
    by an End-Marker tick delivers no frame. *)
Theorem empty_frame_suppressed (st : ReceiverState) (k1 k2 : Tick) :
  reachable st ->
  startMarkerTick k1 ->
  endMarkerTick k2 ->
  emitted st [k1; k2] = [].
Proof.
  intros _. apply start_then_end_silent.
Qed.

Lemma empty_frame_suppressed_witness :
  emitted afterL [mkTick 1800 200 2000; mkTick 1600 200 2050] = [].
Proof.
  apply (empty_frame_suppressed afterL).
  - apply reachable_finalState, reachable_init.
  - split; [unfold loud, SIGNAL_THRESHOLD; simpl; lia | reflexivity].
  - split; [unfold loud, SIGNAL_THRESHOLD; simpl; lia | reflexivity].
Defined.

(** Marker readings, loud or not, leave an empty buffer empty and
    deliver nothing. *)
Lemma marker_reading_empty_buffer (st : ReceiverState) (k : Tick) :
  receivedText st = [] ->
  (tick_frequency k == START_MARKER_FREQ)%Q \/
  (tick_frequency k == END_MARKER_FREQ)%Q ->
  receivedText (fst (step st k)) = [] /\ snd (step st k) = None.
Proof.
  intros Hbuf Hfreq. unfold step.
  destruct (Z_le_gt_dec (tick_magnitude k) SIGNAL_THRESHOLD) as [Hq | Hl].
  - rewrite decide_quiet by exact Hq. auto.
  - destruct Hfreq as [E | E].
    + rewrite decide_start; [auto | lia |].
      apply isStartMarker_iff, startMarker_band.
      unfold START_MARKER_FREQ in E. split; lra.
    + rewrite decide_end; [| lia |].
      * simpl. rewrite Hbuf. auto.
      * apply isEndMarker_iff, endMarker_band.
        unfold END_MARKER_FREQ in E. split; lra.
Qed.

(** The readings of the two tones of the empty text deliver nothing:
    from any state when both readings are above [SIGNAL_THRESHOLD], and
    whatever their magnitudes when the buffer is empty. *)
Lemma empty_text_readings_silent
    (sampleRate : Q) (st : ReceiverState) (ticks : list Tick) :
  Forall2 reads ticks (encodeText sampleRate []) ->
  Forall loud ticks \/ receivedText st = [] ->
  List.length ticks = 2%nat /\
  emitted st ticks = [].
Proof.
  intros Hread Hcase.
  simpl in Hread.
  inversion Hread as [|k1 ? rest1 ? E1 Hread1]; subst.
  inversion Hread1 as [|k2 ? rest2 ? E2 Hread2]; subst.
  inversion Hread2; subst.
  unfold reads in E1, E2. simpl in E1, E2.
  split; [reflexivity|].
  destruct Hcase as [Hloud | Hbuf].
  - inversion Hloud as [|? ? L1 Hloud']; subst.
    inversion Hloud' as [|? ? L2 _]; subst.
    apply start_then_end_silent.
    + split; [exact L1|]. apply startMarker_band.
      unfold START_MARKER_FREQ in E1. split; lra.
    + split; [exact L2|]. apply endMarker_band.
      unfold END_MARKER_FREQ in E2. split; lra.
  - destruct (marker_reading_empty_buffer st k1 Hbuf (or_introl E1))
      as [Hbuf1 Hev1].
    destruct (marker_reading_empty_buffer _ k2 Hbuf1 (or_intror E2))
      as [_ Hev2].
    rewrite !emitted_cons, Hev1, Hev2. reflexivity.
Qed.

(** ** Ticks that are dropped *)

(** C7, as the code has it: a tick whose magnitude is at most
    [SIGNAL_THRESHOLD], and a tick that is neither a Start nor an End
    Marker and whose decoded character code (the rounded ordinal reduced
    modulo 2^16) is outside [32,126], each leave the four fields of the
    state as they were and deliver nothing. *)
Theorem dropped_tick_is_inert (st : ReceiverState) (f : Q) (m now : Z) :
  m <= SIGNAL_THRESHOLD \/
  (~ (Qabs (f - START_MARKER_FREQ) < FREQUENCY_TOLERANCE)%Q /\
   ~ (Qabs (f - END_MARKER_FREQ) < FREQUENCY_TOLERANCE)%Q /\
   ~ (32 <= roundedOrdinal f mod 65536 <= 126)) ->
  decide st f m now = (st, None).
Proof.
  intros [Hquiet | (Hs & He & Hout)].
  - apply decide_quiet. exact Hquiet.
  - destruct (Z_le_gt_dec m SIGNAL_THRESHOLD) as [Hq | Hl].
    + apply decide_quiet. exact Hq.
    + apply decide_unprintable.
      * lia.
      * apply Bool.not_true_iff_false. rewrite isStartMarker_iff. exact Hs.
      * apply Bool.not_true_iff_false. rewrite isEndMarker_iff. exact He.
      * apply Bool.not_true_iff_false. rewrite printable_iff. exact Hout.
Qed.

Lemma dropped_tick_is_inert_witness :
  decide midFrameA 21200 200 1100 = (midFrameA, None).
Proof.
  apply (dropped_tick_is_inert midFrameA 21200 200 1100).
  right. split; [|split].
  - apply Qle_not_lt. vm_compute. discriminate.
  - apply Qle_not_lt. vm_compute. discriminate.
  - vm_compute. intros [_ H]. apply H. reflexivity.
Defined.

(** C7 as stated fails in a receiving state: the two marker
    frequencies have rounded ordinals -1 and -3, outside [32,126], yet a
    Start-Marker tick empties the buffer and an End-Marker tick clears
    the flag and delivers the buffer; and the rounded ordinal 65568 of
    9837200 Hz is outside [32,126], yet the tick appends a character. *)
Lemma out_of_range_ordinal_not_inert :
  (isReceiving midFrameA = true /\ receivedText midFrameA = of_string "A") /\
  (roundedOrdinal 1800 = -1 /\
   receivedText (fst (decide midFrameA 1800 200 1100)) = []) /\
  (roundedOrdinal 1600 = -3 /\
   isReceiving (fst (decide midFrameA 1600 200 1100)) = false /\
   snd (decide midFrameA 1600 200 1100) = Some (of_string "A")) /\
  (roundedOrdinal 9837200 = 65568 /\
   receivedText (fst (decide midFrameA 9837200 200 1100)) = of_string "A ").
Proof.
  vm_compute. repeat split.
Qed.

(** ** Acceptance and the 16-bit wrap of [String.fromCharCode] *)

Section WrapAround.

Lemma roundedOrdinal_lower (f : Q) : (0 <= f)%Q -> -13 <= roundedOrdinal f.
Proof.
  intros Hf. destruct (roundedOrdinal_bounds f) as [_ Hhi].
  assert (H : (inject_Z (-14) < inject_Z (roundedOrdinal f))%Q).
  { change (inject_Z (-14)) with (-14 # 1)%Q. lra. }
  rewrite <- Zlt_Qlt in H. lia.
Qed.

Lemma roundedOrdinal_upper (f : Q) :
  (f < 9837125)%Q -> roundedOrdinal f <= 65567.
Proof.
  intros Hf. destruct (roundedOrdinal_bounds f) as [Hlo _].
  assert (H : (inject_Z (roundedOrdinal f) < inject_Z 65568)%Q).
  { change (inject_Z 65568) with 65568%Q. lra. }
  rewrite <- Zlt_Qlt in H. lia.
Qed.

Lemma ToUint16_negative (n : Z) :
  -65536 <= n < 0 -> ToUint16 n = n + 65536.
Proof.
  intros H. unfold ToUint16. symmetry.
  apply (Z.mod_unique n 65536 (-1)); lia.
Qed.

Lemma ToUint16_one_wrap (n : Z) :
  65536 <= n < 131072 -> ToUint16 n = n - 65536.
Proof.
  intros H. unfold ToUint16. symmetry.
  apply (Z.mod_unique n 65536 1); lia.
Qed.

Lemma ToUint16_small (n : Z) : 0 <= n < 65536 -> ToUint16 n = n.
Proof. intros H. apply Z.mod_small. exact H. Qed.

(** Below the first frequency whose ordinal wraps into the printable
    range, the range test on the character is the range test on the
    ordinal. *)
Lemma printable_ordinal (n : Z) :
  -13 <= n <= 65567 ->
  (printable (fromCharCode n) = true <-> 32 <= n <= 126).
Proof.
  intros H. rewrite printable_iff. unfold fromCharCode.
  destruct (Z_lt_ge_dec n 0) as [Hneg | Hnn].
  - rewrite ToUint16_negative by lia. lia.
  - destruct (Z_lt_ge_dec n 65536) as [Hs | Hw].
    + rewrite ToUint16_small by lia. lia.
    + rewrite ToUint16_one_wrap by lia. lia.
Qed.

End WrapAround.

(** The range test seen from the frequency: for every frequency from
    0 Hz up to, but not including, 9837125 Hz the character built by
    [String.fromCharCode] passes the [32,126] test exactly when the
    rounded ordinal lies in [32,126].  For every frequency of at least
    0 Hz the rounded ordinal is at least -13, and a negative one becomes
    a character code of at least 65523; neither marker frequency decodes
    to a character that passes the test. *)
Lemma acceptance_is_ordinal_range (f : Q) :
  (0 <= f < 9837125)%Q ->
  (printable (frequencyToChar f) = true <-> 32 <= roundedOrdinal f <= 126) /\
  -13 <= roundedOrdinal f /\
  (roundedOrdinal f < 0 -> 65523 <= charCodeAt0 (frequencyToChar f)) /\
  printable (frequencyToChar END_MARKER_FREQ) = false /\
  printable (frequencyToChar START_MARKER_FREQ) = false.
Proof.
  intros [Hlo Hhi].
  pose proof (roundedOrdinal_lower f Hlo) as Rlo.
  pose proof (roundedOrdinal_upper f Hhi) as Rhi.
  split; [|split; [|split; [|split]]].
  - unfold frequencyToChar. apply printable_ordinal. lia.
  - exact Rlo.
  - intros Hneg. unfold charCodeAt0, frequencyToChar, fromCharCode.
    rewrite ToUint16_negative by lia. lia.
  - reflexivity.
  - reflexivity.
Qed.

Lemma acceptance_is_ordinal_range_witness :
  printable (frequencyToChar 12800) = true <-> 32 <= roundedOrdinal 12800 <= 126.
Proof.
  apply (acceptance_is_ordinal_range 12800).
  split; [discriminate | reflexivity].
Defined.

(** Where the 16-bit wrap would start to matter: the rounded ordinal
    of 9837200 Hz, 65568, is outside [32,126], yet the character built
    from it has code 32 and passes the test.  No analyser reading is
    that high (see [analyser_reading_acceptance]). *)
Lemma wrapped_ordinal_accepted :
  (0 <= 9837200)%Q /\
  roundedOrdinal 9837200 = 65568 /\
  charCodeAt0 (frequencyToChar 9837200) = 32 /\
  printable (frequencyToChar 9837200) = true /\
  ~ (32 <= roundedOrdinal 9837200 <= 126).
Proof.
  repeat split; try reflexivity.
  - discriminate.
  - vm_compute. intros [_ H]. apply H. reflexivity.
Qed.

(** ** Debounce *)

Section Debounce.

Lemma roundedOrdinal_comp (f g : Q) :
  (f == g)%Q -> roundedOrdinal f = roundedOrdinal g.
Proof.
  intros E. unfold roundedOrdinal, Math_round.
  apply Qfloor_comp. rewrite E. reflexivity.
Qed.

Lemma inBand_comp (f g : Q) : (f == g)%Q -> inBand f -> inBand g.
Proof.
  intros E. unfold inBand. rewrite (roundedOrdinal_comp f g E). trivial.
Qed.

Lemma frequencyToChar_comp (f g : Q) :
  (f == g)%Q -> frequencyToChar f = frequencyToChar g.
Proof.
  intros E. unfold frequencyToChar. rewrite (roundedOrdinal_comp f g E).
  reflexivity.
Qed.

(** Once a tone has been accepted, further ticks of the same tone do
    nothing. *)
Lemma held_tone_inert (f : Q) (ticks : list Tick) (st : ReceiverState) :
  inBand f -> sustained f ticks -> (lastFrequency st == f)%Q ->
  listen st ticks = (st, []).
Proof.
  intros Hband Hsus Hlast.
  induction Hsus as [|k rest [Hk Hloud] _ IH]; [reflexivity|].
  assert (Hk' : (f == tick_frequency k)%Q) by (symmetry; exact Hk).
  destruct (inBand_not_marker _ (inBand_comp _ _ Hk' Hband)) as [Hns Hne].
  assert (E : step st k = (st, None)).
  { unfold step. apply decide_held; try assumption.
    apply ltb_ge. unfold Math_abs, FREQUENCY_TOLERANCE.
    apply Qabs_Qle_condition. split; lra. }
  simpl. rewrite E, IH. reflexivity.
Qed.

Lemma accept_inBand (st : ReceiverState) (k : Tick) :
  isReceiving st = true -> inBand (tick_frequency k) -> loud k ->
  (FREQUENCY_TOLERANCE < Qabs (tick_frequency k - lastFrequency st))%Q ->
  lateEnough st k ->
  step st k =
    ({| isReceiving := true;
        receivedText := receivedText st ++ [frequencyToChar (tick_frequency k)];
        lastFrequency := tick_frequency k;
        lastFrequencyTime := tick_time k |}, None).
Proof.
  intros Hr Hband Hloud Hfar Hlate.
  destruct (inBand_not_marker _ Hband) as [Hns Hne].
  destruct (inBand_printable _ Hband) as [_ Hp].
  unfold step. apply decide_accept; try assumption.
  apply acceptGap_iff. exact Hlate.
Qed.

Lemma reject_early (st : ReceiverState) (k : Tick) :
  inBand (tick_frequency k) -> loud k ->
  ~ lateEnough st k ->
  step st k = (st, None).
Proof.
  intros Hband Hloud Hearly.
  destruct (inBand_not_marker _ Hband) as [Hns Hne].
  unfold step. apply decide_early; try assumption.
  unfold lateEnough in Hearly. rewrite acceptGap_iff in Hearly. lia.
Qed.

Lemma lateEnough_dec (st : ReceiverState) (k : Tick) :
  {lateEnough st k} + {~ lateEnough st k}.
Proof.
  unfold lateEnough.
  destruct (Z_lt_ge_dec 40 (tick_time k - lastFrequencyTime st)) as [H | H].
  - left. apply acceptGap_iff. exact H.
  - right. rewrite acceptGap_iff. lia.
Qed.

End Debounce.

(** C6, as the code has it: in a receiving state, a sustained in-band
    tone whose frequency differs from the last accepted one by more than
    [FREQUENCY_TOLERANCE], seen on any number of loud ticks of which at
    least one comes more than [0.8 * CHAR_DURATION] after the last
    acceptance, appends exactly one symbol to the buffer, however many
    ticks it spans, and delivers nothing. *)
Theorem sustained_tone_one_symbol
    (st : ReceiverState) (f : Q) (ticks : list Tick) :
  isReceiving st = true ->
  inBand f ->
  sustained f ticks ->
  (FREQUENCY_TOLERANCE < Qabs (f - lastFrequency st))%Q ->
  Exists (lateEnough st) ticks ->
  receivedText (finalState st ticks) = receivedText st ++ [frequencyToChar f] /\
  isReceiving (finalState st ticks) = true /\
  emitted st ticks = [].
Proof.
  intros Hr Hband Hsus Hfar Hlate.
  induction Hsus as [|k rest [Hk Hloud] Hrest IH].
  - inversion Hlate.
  - assert (Hk' : (f == tick_frequency k)%Q) by (symmetry; exact Hk).
    pose proof (inBand_comp _ _ Hk' Hband) as Hbandk.
    destruct (lateEnough_dec st k) as [Hnow | Hnot].
    + assert (Hfark :
        (FREQUENCY_TOLERANCE < Qabs (tick_frequency k - lastFrequency st))%Q)
        by (rewrite Hk; exact Hfar).
      pose proof (accept_inBand st k Hr Hbandk Hloud Hfark Hnow) as E.
      rewrite (frequencyToChar_comp _ _ Hk) in E.
      unfold finalState, emitted. simpl. rewrite E.
      rewrite (held_tone_inert f rest
                 (mkState true (receivedText st ++ [frequencyToChar f])
                          (tick_frequency k) (tick_time k))
                 Hband Hrest Hk).
      simpl. repeat split.
    + pose proof (reject_early st k Hbandk Hloud Hnot) as E.
      assert (Hlater : Exists (lateEnough st) rest).
      { inversion Hlate; subst; [contradiction | assumption]. }
      rewrite finalState_cons, emitted_cons, E. simpl.
      apply IH. exact Hlater.
Qed.

Lemma sustained_tone_one_symbol_witness :
  receivedText
    (finalState (mkState true (of_string "H") (charToFrequency 72%Z) 1050)
       [ mkTick (charToFrequency 73%Z) 200 1066;
         mkTick (charToFrequency 73%Z) 200 1083;
         mkTick (charToFrequency 73%Z) 200 1100;
         mkTick (charToFrequency 73%Z) 200 1116 ])
  = of_string "HI".
Proof.
  apply (sustained_tone_one_symbol
           (mkState true (of_string "H") (charToFrequency 72%Z) 1050)
           (charToFrequency 73%Z)).
  - reflexivity.
  - apply charToFrequency_inBand. lia.
  - repeat constructor; unfold loud, SIGNAL_THRESHOLD; simpl; lia.
  - reflexivity.
  - do 2 apply Exists_cons_tl. apply Exists_cons_hd. reflexivity.
Defined.

(** C6 as stated fails.  The receiver has just accepted 'L' at 1050 ms.
    A sustained 'L' tone, seen on two loud ticks [CHAR_DURATION] apart,
    appends nothing: it is taken for the tone already accepted. *)
Lemma sustained_tone_no_symbol :
  isReceiving afterL = true /\ receivedText afterL = of_string "L" /\
  lastFrequencyTime afterL = 1050 /\
  inBand (charToFrequency 76%Z) /\
  sustained (charToFrequency 76%Z)
    [ mkTick (charToFrequency 76%Z) 200 1100;
      mkTick (charToFrequency 76%Z) 200 1150 ] /\
  receivedText
    (finalState afterL [ mkTick (charToFrequency 76%Z) 200 1100;
                         mkTick (charToFrequency 76%Z) 200 1150 ])
    = of_string "L".
Proof.
  repeat split; try reflexivity; try discriminate.
  repeat constructor; unfold loud, SIGNAL_THRESHOLD; simpl; lia.
Qed.

(** The timing condition is needed as well: a different tone seen only
    16 ms after the last acceptance is not taken. *)
Example early_tone_not_taken :
  receivedText (finalState afterL [mkTick (charToFrequency 77%Z) 200 1066])
    = of_string "L".
Proof. reflexivity. Qed.

(** ** Round trip *)

Section RoundTrip.

Lemma far_distinct_chars (c1 c2 : char16) :
  c1 <> c2 ->
  (FREQUENCY_TOLERANCE < Qabs (charToFrequency c2 - charToFrequency c1))%Q.
Proof.
  intros Hne. unfold FREQUENCY_TOLERANCE.
  pose proof (charToFrequency_value c1) as E1.
  pose proof (charToFrequency_value c2) as E2.
  destruct (Z_lt_ge_dec c1 c2) as [Hlt | Hge].
  - assert (H : (inject_Z (c1 + 1) <= inject_Z c2)%Q)
      by (apply Zle_inject; lia).
    rewrite inject_Z_succ in H.
    apply Qlt_le_trans with (charToFrequency c2 - charToFrequency c1)%Q;
      [lra | apply Qle_Qabs].
  - assert (H : (inject_Z (c2 + 1) <= inject_Z c1)%Q)
      by (apply Zle_inject; lia).
    rewrite inject_Z_succ in H.
    rewrite <- Qabs_opp.
    apply Qlt_le_trans with (- (charToFrequency c2 - charToFrequency c1))%Q;
      [lra | apply Qle_Qabs].
Qed.

Lemma far_from_silence (c : char16) :
  32 <= c ->
  (FREQUENCY_TOLERANCE < Qabs (charToFrequency c - 0))%Q.
Proof.
  intros Hc. unfold FREQUENCY_TOLERANCE.
  pose proof (charToFrequency_value c) as E.
  apply Zle_inject in Hc. change (inject_Z 32) with 32%Q in Hc.
  apply Qlt_le_trans with (charToFrequency c - 0)%Q;
    [lra | apply Qle_Qabs].
Qed.

Lemma spacedAfter_earlier (prev prev' : Z) (ticks : list Tick) :
  prev' <= prev -> spacedAfter prev ticks -> spacedAfter prev' ticks.
Proof.
  intros Hle. destruct ticks as [|k rest]; [trivial|].
  simpl. rewrite !acceptGap_iff. intros [H1 H2]. split; [lia | exact H2].
Qed.

Lemma spacedAfter_app (prev : Z) (a b : list Tick) :
  spacedAfter prev (a ++ b) -> spacedAfter prev a.
Proof.
  revert prev. induction a as [|k a IH]; intros prev; simpl; [trivial|].
  intros [H1 H2]. split; [exact H1 | apply IH; exact H2].
Qed.

(** The symbol ticks of a frame, taken one by one: every one is
    accepted, nothing is delivered. *)
Lemma listen_symbols (cs : jsstring) :
  forall (ticks : list Tick) (st : ReceiverState),
    isReceiving st = true ->
    Forall2 (fun k c => (tick_frequency k == charToFrequency c)%Q) ticks cs ->
    Forall loud ticks ->
    printableText cs ->
    noRepeat cs ->
    match cs with
    | c :: _ =>
        (FREQUENCY_TOLERANCE < Qabs (charToFrequency c - lastFrequency st))%Q
    | [] => True
    end ->
    spacedAfter (lastFrequencyTime st) ticks ->
    emitted st ticks = [] /\
    isReceiving (finalState st ticks) = true /\
    receivedText (finalState st ticks) = receivedText st ++ cs.
Proof.
  induction cs as [|c cs IH]; intros ticks st Hr Hmap Hloud Hpr Hnr Hhead Hsp.
  - inversion Hmap; subst.
    unfold emitted, finalState. simpl. rewrite app_nil_r. auto.
  - inversion Hmap as [|k ? rest ? Hk Hmap']; subst.
    inversion Hloud as [|? ? Lk Hloud']; subst.
    inversion Hpr as [|? ? Pc Hpr']; subst.
    destruct Hnr as [Hnext Hnr]. destruct Hsp as [Hgap Hsp].
    unfold charCodeAt0 in Pc.
    assert (Hk' : (charToFrequency c == tick_frequency k)%Q)
      by (symmetry; exact Hk).
    assert (Hfar :
      (FREQUENCY_TOLERANCE < Qabs (tick_frequency k - lastFrequency st))%Q)
      by (rewrite Hk; exact Hhead).
    pose proof (accept_inBand st k Hr
                  (inBand_comp _ _ Hk' (charToFrequency_inBand c Pc))
                  Lk Hfar Hgap) as E.
    rewrite (frequencyToChar_comp _ _ Hk),
      (frequencyToChar_charToFrequency c Pc) in E.
    rewrite emitted_cons, finalState_cons, E. simpl.
    set (st1 := mkState true (receivedText st ++ [c])
                        (tick_frequency k) (tick_time k)).
    assert (Hhead1 :
      match cs with
      | c2 :: _ =>
          (FREQUENCY_TOLERANCE
           < Qabs (charToFrequency c2 - lastFrequency st1))%Q
      | [] => True
      end).
    { destruct cs as [|c2 cs']; [trivial|].
      unfold st1, lastFrequency. rewrite Hk.
      apply far_distinct_chars. exact Hnext. }
    destruct (IH rest st1 eq_refl Hmap' Hloud' Hpr' Hnr Hhead1 Hsp)
      as (Hem & Hrec & Hbuf).
    rewrite Hem, Hrec, Hbuf. unfold st1. simpl.
    rewrite <- app_assoc. auto.
Qed.

(** The ticks that read a frame: one for the Start Marker, one per
    character, one for the End Marker. *)
Lemma readings_of_frame (sampleRate : Q) (T : jsstring) (ticks : list Tick) :
  readingsOf (encodeText sampleRate T) ticks ->
  exists k0 mid kE,
    ticks = k0 :: mid ++ [kE] /\
    startMarkerTick k0 /\ endMarkerTick kE /\
    Forall2 (fun k c => (tick_frequency k == charToFrequency c)%Q) mid T /\
    Forall loud mid.
Proof.
  intros [Hread Hloud]. unfold encodeText, split_chars in Hread.
  simpl in Hread.
  inversion Hread as [|k0 ? rest ? H0 Hrest]; subst.
  apply Forall2_app_inv_r in Hrest.
  destruct Hrest as (mid & last & Hmid & Hlast & ->).
  inversion Hlast as [|kE ? lastr ? HE Hnil]; subst.
  inversion Hnil; subst.
  inversion Hloud as [|? ? L0 Hloud']; subst.
  apply Forall_app in Hloud'. destruct Hloud' as [Lmid LE].
  inversion LE as [|? ? LkE _]; subst.
  unfold reads in H0, HE. simpl in H0, HE.
  exists k0, mid, kE. repeat split; try assumption.
  - apply startMarker_band. unfold START_MARKER_FREQ in H0. split; lra.
  - apply endMarker_band. unfold END_MARKER_FREQ in HE. split; lra.
  - clear - Hmid. revert mid Hmid.
    induction T as [|c T IH]; intros mid Hmid; simpl in Hmid.
    + inversion Hmid. constructor.
    + inversion Hmid as [|k ? mid' ? Hk Hmid']; subst.
      constructor; [exact Hk | apply IH; exact Hmid'].
Qed.

(** A whole frame, from any state in which the first character can be
    accepted: its last accepted frequency is far from the frequency of
    the first character and its last acceptance is not later than the
    Start-Marker tick. *)
Lemma frame_delivered (sampleRate : Q) (T : jsstring) (ticks : list Tick)
    (st : ReceiverState) :
  T <> [] ->
  printableText T ->
  noRepeat T ->
  readingsOf (encodeText sampleRate T) ticks ->
  wellTimed (lastFrequencyTime st) ticks ->
  match T with
  | c :: _ =>
      (FREQUENCY_TOLERANCE < Qabs (charToFrequency c - lastFrequency st))%Q
  | [] => True
  end ->
  emitted st ticks = [T].
Proof.
  intros Hne Hpr Hnr Hread Htime Hhead.
  destruct (readings_of_frame sampleRate T ticks Hread)
    as (k0 & mid & kE & -> & Hstart & Hend & Hmap & Hloud).
  destruct Htime as [Ht0 Hsp].
  rewrite emitted_cons, (step_startMarker _ k0 Hstart). simpl.
  set (st1 := mkState true [] (lastFrequency st) (lastFrequencyTime st)).
  destruct (listen_symbols T mid st1) as (Hem & Hrec & Hbuf);
    try assumption; try reflexivity.
  - apply spacedAfter_earlier with (tick_time k0); [exact Ht0|].
    apply spacedAfter_app with [kE]. exact Hsp.
  - rewrite emitted_app, Hem. simpl.
    rewrite emitted_cons, (step_endMarker _ kE Hend). simpl.
    rewrite Hbuf. simpl.
    apply truthy_true in Hne. rewrite Hne. reflexivity.
Qed.

End RoundTrip.

(** C2, as the code has it: for every non-empty text whose character
    codes lie in [32,126] and in which no character is followed by the
    same character, the noise-free, loud readings of the tones of
    [encodeText], consecutive ticks more than [0.8 * CHAR_DURATION]
    apart, make a freshly started receiver deliver exactly one frame,
    and its text is the text that was sent. *)
Theorem frame_roundtrip
    (sampleRate : Q) (T : jsstring) (t0 : Z) (ticks : list Tick) :
  T <> [] ->
  printableText T ->
  noRepeat T ->
  readingsOf (encodeText sampleRate T) ticks ->
  wellTimed t0 ticks ->
  emitted (initialState t0) ticks = [T].
Proof.
  intros Hne Hpr Hnr Hread Htime.
  apply (frame_delivered sampleRate T ticks (initialState t0));
    try assumption.
  destruct T as [|c T']; [trivial|].
  inversion Hpr as [|? ? Pc _]; subst. unfold charCodeAt0 in Pc.
  apply far_from_silence. lia.
Qed.

Lemma frame_roundtrip_witness :
  emitted (initialState 0) frameHI = [of_string "HI"].
Proof.
  apply (frame_roundtrip SAMPLE_RATE (of_string "HI") 0 frameHI).
  - discriminate.
  - unfold printableText, charCodeAt0. simpl.
    repeat (apply Forall_cons; [lia|]). apply Forall_nil.
  - simpl. repeat split; discriminate.
  - split; [repeat constructor|].
    repeat constructor; unfold loud, SIGNAL_THRESHOLD; simpl; lia.
  - simpl. repeat split; try reflexivity. lia.
Defined.

(** C2 as stated fails.  The readings of "LL" deliver the frame "L":
    the second 'L' reports the frequency just accepted and is taken for
    the same tone.  The readings of the empty text deliver no frame. *)
Lemma frame_roundtrip_fails :
  (printableText (of_string "LL") /\
   readingsOf (encodeText SAMPLE_RATE (of_string "LL")) frameLL /\
   wellTimed 0 frameLL /\
   emitted (initialState 0) frameLL = [of_string "L"] /\
   emitted (initialState 0) frameLL <> [of_string "LL"]) /\
  (printableText [] /\
   readingsOf (encodeText SAMPLE_RATE []) frameEmpty /\
   wellTimed 0 frameEmpty /\
   emitted (initialState 0) frameEmpty = [] /\
   emitted (initialState 0) frameEmpty <> [[]]).
Proof.
  split.
  - split; [unfold printableText, charCodeAt0; simpl;
            repeat (apply Forall_cons; [lia|]); apply Forall_nil|].
    split; [split; [repeat constructor|
                    repeat constructor; unfold loud, SIGNAL_THRESHOLD;
                    simpl; lia]|].
    split; [simpl; repeat split; try reflexivity; lia|].
    split; [reflexivity | vm_compute; discriminate].
  - split; [constructor|].
    split; [split; [repeat constructor|
                    repeat constructor; unfold loud, SIGNAL_THRESHOLD;
                    simpl; lia]|].
    split; [simpl; repeat split; try reflexivity; lia|].
    split; [reflexivity | vm_compute; discriminate].
Qed.

(** ** The analyser's readings *)

Section Analyser.

Lemma analyze_decide (sampleRate : Q) (st : ReceiverState)
    (dataArray : list Z) (now : Z) :
  analyze sampleRate st dataArray now =
    decide st (dominantFrequencyOf sampleRate dataArray)
           (fst (peakScan dataArray 0 0 0)) now.
Proof.
  unfold analyze, dominantFrequencyOf.
  destruct (peakScan dataArray 0 0 0) as [maxValue maxIndex]. reflexivity.
Qed.

(** The index the peak search returns is the one it started with or
    the index of a bin it visited. *)
Lemma peakScan_index (dataArray : list Z) :
  forall i maxValue maxIndex,
    snd (peakScan dataArray i maxValue maxIndex) = maxIndex \/
    i <= snd (peakScan dataArray i maxValue maxIndex)
      < i + Z.of_nat (List.length dataArray).
Proof.
  induction dataArray as [|v rest IH]; intros i maxValue maxIndex.
  - left. reflexivity.
  - simpl peakScan. destruct (maxValue <? v).
    + right. destruct (IH (i + 1) v i) as [E | R];
        rewrite List.length_cons; lia.
    + destruct (IH (i + 1) maxValue maxIndex) as [E | R];
        [left; exact E | right; rewrite List.length_cons; lia].
Qed.

(** The largest magnitude found is a byte of the spectrum, or 0. *)
Lemma peakScan_value (dataArray : list Z) :
  forall i maxValue maxIndex,
    fst (peakScan dataArray i maxValue maxIndex) = maxValue \/
    In (fst (peakScan dataArray i maxValue maxIndex)) dataArray.
Proof.
  induction dataArray as [|v rest IH]; intros i maxValue maxIndex.
  - left. reflexivity.
  - simpl peakScan. destruct (maxValue <? v).
    + right. destruct (IH (i + 1) v i) as [E | R];
        [left; symmetry; exact E | right; exact R].
    + destruct (IH (i + 1) maxValue maxIndex) as [E | R];
        [left; exact E | right; right; exact R].
Qed.

(** With [frequencyBinCount] bins, the dominant frequency lies below
    half the sample rate. *)
Lemma dominantFrequency_range (sampleRate : Q) (dataArray : list Z) :
  (0 < sampleRate)%Q ->
  Z.of_nat (List.length dataArray) = frequencyBinCount ->
  (0 <= dominantFrequencyOf sampleRate dataArray < sampleRate / 2)%Q.
Proof.
  intros Hsr Hlen. unfold dominantFrequencyOf.
  assert (Hidx : 0 <= snd (peakScan dataArray 0 0 0) <= 2047).
  { destruct (peakScan_index dataArray 0 0 0) as [E | R].
    - rewrite E. lia.
    - rewrite Hlen in R. change frequencyBinCount with 2048 in R. lia. }
  destruct Hidx as [Ilo Ihi].
  apply Zle_inject in Ilo, Ihi.
  change (inject_Z 0) with 0%Q in Ilo.
  change (inject_Z 2047) with 2047%Q in Ihi.
  change (inject_Z fftSize) with 4096%Q.
  set (x := inject_Z (snd (peakScan dataArray 0 0 0))) in *.
  assert (E : (x * sampleRate / 4096 == (x * sampleRate) * (1 # 4096))%Q)
    by field.
  assert (P1 : (0 <= x * sampleRate)%Q)
    by (apply Qmult_le_0_compat; lra).
  assert (P2 : (x * sampleRate <= 2047 * sampleRate)%Q)
    by (apply Qmult_le_compat_r; lra).
  assert (E2 : (sampleRate / 2 == sampleRate * (1 # 2))%Q) by field.
  rewrite E, E2.
  set (y := (x * sampleRate)%Q) in *.
  split; lra.
Qed.

(** For every reading the analyser can produce at a sample rate below
    19.6 MHz, the range test on the decoded character is the range
    test on the rounded ordinal. *)
Lemma analyser_reading_acceptance (sampleRate : Q) (dataArray : list Z) :
  (0 < sampleRate <= 19674250)%Q ->
  Z.of_nat (List.length dataArray) = frequencyBinCount ->
  (printable (frequencyToChar (dominantFrequencyOf sampleRate dataArray)) = true
   <-> inBand (dominantFrequencyOf sampleRate dataArray)).
Proof.
  intros [Hpos Hmax] Hlen.
  destruct (dominantFrequency_range sampleRate dataArray Hpos Hlen)
    as [Flo Fhi].
  unfold frequencyToChar, inBand. apply printable_ordinal. split.
  - apply roundedOrdinal_lower. exact Flo.
  - apply roundedOrdinal_upper.
    assert (E : (sampleRate / 2 == sampleRate * (1 # 2))%Q) by field.
    rewrite E in Fhi. lra.
Qed.

End Analyser.

(** * Further properties of the codec *)

(** ** The frequency mapping *)

Section MappingMore.

Lemma Qdiv_150 (x : Q) : (x / 150 == x * (1 # 150))%Q.
Proof. field. Qed.

Lemma roundedOrdinal_window (c : Z) (f : Q) :
  (charToFrequency c - 75 <= f < charToFrequency c + 75)%Q ->
  roundedOrdinal f = c.
Proof.
  intros [Hlo Hhi]. pose proof (charToFrequency_value c) as E.
  unfold roundedOrdinal, BASE_FREQUENCY, FREQUENCY_STEP.
  apply Math_round_unique. rewrite Qdiv_150. split; lra.
Qed.

Lemma marker_window_ordinal (f : Q) :
  (1560 < f < 1840)%Q -> -3 <= roundedOrdinal f <= -1.
Proof.
  intros [Hlo Hhi]. destruct (roundedOrdinal_bounds f) as [Blo Bhi].
  assert (H1 : (inject_Z (-4) < inject_Z (roundedOrdinal f))%Q).
  { change (inject_Z (-4)) with (-4 # 1)%Q. lra. }
  assert (H2 : (inject_Z (roundedOrdinal f) < inject_Z 0)%Q).
  { change (inject_Z 0) with 0%Q. lra. }
  rewrite <- Zlt_Qlt in H1, H2. lia.
Qed.

Lemma charToFrequency_band_bounds (c : char16) :
  32 <= c <= 126 -> (6800 <= charToFrequency c <= 20900)%Q.
Proof.
  intros [Hlo Hhi]. apply Zle_inject in Hlo, Hhi.
  change (inject_Z 32) with 32%Q in Hlo.
  change (inject_Z 126) with 126%Q in Hhi.
  pose proof (charToFrequency_value c) as E. split; lra.
Qed.

Lemma frequencyToChar_charToFrequency_unit (c : char16) :
  0 <= c < 65536 -> frequencyToChar (charToFrequency c) = c.
Proof.
  intros Hc. unfold frequencyToChar, fromCharCode.
  rewrite roundedOrdinal_charToFrequency. apply ToUint16_small. exact Hc.
Qed.

End MappingMore.

(** X1: a reading less than half a step (75 Hz) away from the frequency
    of a character decodes to that character, for every code unit. *)
Theorem decode_within_half_step (c : char16) (f : Q) :
  0 <= c < 65536 ->
  (charToFrequency c - 75 <= f < charToFrequency c + 75)%Q ->
  frequencyToChar f = c.
Proof.
  intros Hc Hf. unfold frequencyToChar, fromCharCode.
  rewrite (roundedOrdinal_window c f Hf). apply ToUint16_small. exact Hc.
Qed.

Lemma decode_within_half_step_witness :
  frequencyToChar 12860 = 72.
Proof.
  apply (decode_within_half_step 72 12860).
  - lia.
  - split; [discriminate | reflexivity].
Defined.

(** X2: a frequency in the Start-Marker or the End-Marker window has a
    rounded ordinal of -3, -2 or -1, so it never passes the range test
    of a symbol, and a frequency that decodes to a code from 0 up is in
    neither window. *)
Theorem markers_outside_symbols (f : Q) :
  isStartMarker f = true \/ isEndMarker f = true ->
  -3 <= roundedOrdinal f <= -1 /\
  65533 <= charCodeAt0 (frequencyToChar f) <= 65535 /\
  printable (frequencyToChar f) = false.
Proof.
  intros H.
  assert (Hw : (1560 < f < 1840)%Q).
  { destruct H as [H | H].
    - apply isStartMarker_iff, startMarker_band in H. destruct H. split; lra.
    - apply isEndMarker_iff, endMarker_band in H. destruct H. split; lra. }
  pose proof (marker_window_ordinal f Hw) as Ho.
  assert (E : frequencyToChar f = roundedOrdinal f + 65536).
  { unfold frequencyToChar, fromCharCode. apply ToUint16_negative. lia. }
  unfold charCodeAt0. rewrite E. split; [exact Ho | split; [lia|]].
  apply Bool.not_true_iff_false. rewrite printable_iff. lia.
Qed.

Lemma markers_outside_symbols_witness :
  printable (frequencyToChar 1839) = false.
Proof.
  apply (markers_outside_symbols 1839). left. reflexivity.
Defined.

(** X3: the frequencies of two different characters are at least one
    step (150 Hz) apart, more than the tolerance that makes the receiver
    take a reading for the tone it accepted last. *)
Theorem distinct_chars_one_step_apart (c1 c2 : char16) :
  c1 <> c2 ->
  (FREQUENCY_STEP <= Qabs (charToFrequency c2 - charToFrequency c1))%Q /\
  (FREQUENCY_TOLERANCE < Qabs (charToFrequency c2 - charToFrequency c1))%Q.
Proof.
  intros Hne.
  assert (H : (150 <= Qabs (charToFrequency c2 - charToFrequency c1))%Q).
  { pose proof (charToFrequency_value c1) as E1.
    pose proof (charToFrequency_value c2) as E2.
    destruct (Z_lt_ge_dec c1 c2) as [Hlt | Hge].
    - assert (H : (inject_Z (c1 + 1) <= inject_Z c2)%Q)
        by (apply Zle_inject; lia).
      rewrite inject_Z_succ in H.
      apply Qle_trans with (charToFrequency c2 - charToFrequency c1)%Q;
        [lra | apply Qle_Qabs].
    - assert (H : (inject_Z (c2 + 1) <= inject_Z c1)%Q)
        by (apply Zle_inject; lia).
      rewrite inject_Z_succ in H.
      rewrite <- Qabs_opp.
      apply Qle_trans with (- (charToFrequency c2 - charToFrequency c1))%Q;
        [lra | apply Qle_Qabs]. }
  unfold FREQUENCY_STEP, FREQUENCY_TOLERANCE. split; [exact H | lra].
Qed.

Lemma distinct_chars_one_step_apart_witness :
  (FREQUENCY_TOLERANCE < Qabs (charToFrequency 73%Z - charToFrequency 72%Z))%Q.
Proof.
  apply (distinct_chars_one_step_apart 72 73). discriminate.
Defined.

(** X4: decoding the frequencies of the tones of [encodeText], tone by
    tone, gives back the text between the codes the two markers decode
    to (65535 and 65533), for every text of UTF-16 code units. *)
Theorem encodeText_frequencies_decode (sampleRate : Q) (text : jsstring) :
  Forall (fun c => 0 <= c < 65536) text ->
  map (fun t => frequencyToChar (tone_frequency t)) (encodeText sampleRate text)
    = 65535 :: text ++ [65533].
Proof.
  intros Htext. unfold encodeText, split_chars. simpl.
  rewrite map_app, map_map. simpl. f_equal.
  change (frequencyToChar END_MARKER_FREQ) with 65533. f_equal.
  induction Htext as [|c rest Hc _ IH]; [reflexivity|].
  simpl. rewrite IH. f_equal.
  apply frequencyToChar_charToFrequency_unit. exact Hc.
Qed.

Lemma encodeText_frequencies_decode_witness :
  map (fun t => frequencyToChar (tone_frequency t))
      (encodeText SAMPLE_RATE (of_string "HI"))
    = 65535 :: of_string "HI" ++ [65533].
Proof.
  apply (encodeText_frequencies_decode SAMPLE_RATE (of_string "HI")).
  simpl. repeat (apply Forall_cons; [lia|]). apply Forall_nil.
Defined.

(** ** Tone buffers *)

Section ToneBuffers.

Lemma Qceiling_bounds (x : Q) :
  (x <= inject_Z (Qceiling x) < x + 1)%Q.
Proof.
  split; [apply Qle_ceiling|].
  pose proof (Qceiling_lt x) as H.
  assert (E : (inject_Z (Qceiling x - 1) == inject_Z (Qceiling x) - 1)%Q).
  { unfold Z.sub. rewrite inject_Z_plus. reflexivity. }
  rewrite E in H. lra.
Qed.

(** The wait for one tone is at least the duration asked for. *)
Lemma playBufferWait_lower (sampleRate frequency duration : Q) :
  (0 < sampleRate)%Q ->
  (duration * 1000
   <= playBufferWait sampleRate (generateTone sampleRate frequency duration))%Q.
Proof.
  intros Hsr. unfold playBufferWait, bufferDuration, generateTone, Math_ceil.
  simpl.
  destruct (Qceiling_bounds (duration * sampleRate)) as [Hlo _].
  assert (H : (duration <= inject_Z (Qceiling (duration * sampleRate))
                           / sampleRate)%Q)
    by (apply Qle_shift_div_l; assumption).
  lra.
Qed.

Lemma fold_wait_lower (sampleRate : Q) (tones : list Tone) (bound : Q) :
  Forall (fun t => (bound <= playBufferWait sampleRate t)%Q) tones ->
  (inject_Z (Z.of_nat (List.length tones)) * bound
   <= fold_right Qplus 0 (map (playBufferWait sampleRate) tones))%Q.
Proof.
  induction 1 as [|t rest Ht _ IH].
  - change (0 * bound <= 0)%Q. lra.
  - rewrite List.length_cons, Nat2Z.inj_succ. unfold Z.succ.
    rewrite inject_Z_succ. simpl map. simpl fold_right.
    set (n := inject_Z (Z.of_nat (List.length rest))) in *.
    assert (E : ((n + 1) * bound == n * bound + bound)%Q) by ring.
    rewrite E. lra.
Qed.

End ToneBuffers.

(** X5: the buffer [generateTone] builds is never shorter than the
    duration asked for and is longer by less than one sample period;
    at 48000 Hz a [CHAR_DURATION] tone is 2400 samples, exactly 50 ms. *)
Theorem generateTone_duration (sampleRate frequency duration : Q) :
  (0 < sampleRate)%Q ->
  (duration
   <= bufferDuration sampleRate (generateTone sampleRate frequency duration)
   < duration + 1 / sampleRate)%Q /\
  tone_samples (generateTone SAMPLE_RATE frequency CHAR_DURATION) = 2400 /\
  (bufferDuration SAMPLE_RATE (generateTone SAMPLE_RATE frequency CHAR_DURATION)
   == CHAR_DURATION)%Q.
Proof.
  intros Hsr. split; [|split; reflexivity].
  unfold bufferDuration, generateTone, Math_ceil. simpl.
  destruct (Qceiling_bounds (duration * sampleRate)) as [Hlo Hhi].
  split.
  - apply Qle_shift_div_l; assumption.
  - apply Qlt_shift_div_r; [assumption|].
    assert (E : ((duration + 1 / sampleRate) * sampleRate
                 == duration * sampleRate + 1)%Q)
      by (field; lra).
    rewrite E. exact Hhi.
Qed.

Lemma generateTone_duration_witness :
  (CHAR_DURATION
   <= bufferDuration 44100 (generateTone 44100 1800 CHAR_DURATION)
   < CHAR_DURATION + 1 / 44100)%Q.
Proof.
  apply (generateTone_duration 44100 1800 CHAR_DURATION). reflexivity.
Defined.

(** X6: [encodeText] waits at least [CHAR_DURATION] (50 ms) for each of
    its [length text + 2] tones, so a transmission is never shorter than
    [(length text + 2) * 50] ms. *)
Theorem encodeText_wait_lower (sampleRate : Q) (text : jsstring) :
  (0 < sampleRate)%Q ->
  List.length (encodeText sampleRate text) = S (S (List.length text)) /\
  (inject_Z (Z.of_nat (List.length text) + 2) * 50
   <= encodeTextWait sampleRate text)%Q.
Proof.
  intros Hsr.
  assert (Hlen : List.length (encodeText sampleRate text)
                 = S (S (List.length text))).
  { unfold encodeText, split_chars. simpl.
    rewrite List.length_app, List.length_map. simpl. lia. }
  split; [exact Hlen|].
  unfold encodeTextWait.
  assert (Hall : Forall (fun t => (50 <= playBufferWait sampleRate t)%Q)
                        (encodeText sampleRate text)).
  { assert (Hone : forall f,
      (50 <= playBufferWait sampleRate
               (generateTone sampleRate f CHAR_DURATION))%Q).
    { intros f. pose proof (playBufferWait_lower sampleRate f CHAR_DURATION Hsr)
        as H.
      assert (E : (CHAR_DURATION * 1000 == 50)%Q) by reflexivity.
      rewrite E in H. exact H. }
    unfold encodeText, split_chars. simpl.
    apply Forall_cons; [apply Hone|].
    apply Forall_app. split.
    - apply Forall_forall. intros t Hin. apply in_map_iff in Hin.
      destruct Hin as (c & <- & _). apply Hone.
    - apply Forall_cons; [apply Hone | apply Forall_nil]. }
  pose proof (fold_wait_lower sampleRate _ 50 Hall) as H.
  rewrite Hlen in H.
  replace (Z.of_nat (S (S (List.length text))))
    with (Z.of_nat (List.length text) + 2) in H by lia.
  exact H.
Qed.

Lemma encodeText_wait_lower_witness :
  (inject_Z (Z.of_nat (List.length (of_string "HI")) + 2) * 50
   <= encodeTextWait 44100 (of_string "HI"))%Q.
Proof.
  apply (encodeText_wait_lower 44100 (of_string "HI")). reflexivity.
Defined.

(** X7: with a positive [fadeSamples], the factor applied to a sample of
    the buffer lies between 0 and 1; it is 0 for sample 0 only, and it
    is 1 from sample [fadeSamples] to sample [samples - fadeSamples]. *)
Theorem fade_range (samples fadeSamples i : Z) :
  0 < fadeSamples ->
  0 <= i < samples ->
  (0 <= fade samples fadeSamples i <= 1)%Q /\
  ((fade samples fadeSamples i == 0)%Q <-> i = 0) /\
  (fadeSamples <= i <= samples - fadeSamples ->
   fade samples fadeSamples i = 1%Q).
Proof.
  intros Hfs [Hi0 Hi1].
  assert (Hfq : (0 < inject_Z fadeSamples)%Q).
  { change 0%Q with (inject_Z 0). rewrite <- Zlt_Qlt. exact Hfs. }
  assert (Hratio : forall n, 0 <= n <= fadeSamples ->
            (0 <= inject_Z n / inject_Z fadeSamples <= 1)%Q /\
            ((inject_Z n / inject_Z fadeSamples == 0)%Q <-> n = 0)).
  { intros n [Hn0 Hn1].
    assert (Q0 : (0 <= inject_Z n)%Q)
      by (change 0%Q with (inject_Z 0); apply Zle_inject; exact Hn0).
    assert (Q1 : (inject_Z n <= inject_Z fadeSamples)%Q)
      by (apply Zle_inject; exact Hn1).
    split; [split|].
    - apply Qle_shift_div_l; [exact Hfq | lra].
    - apply Qle_shift_div_r; [exact Hfq | lra].
    - split.
      + intros E.
        assert (E' : (inject_Z n == 0)%Q).
        { assert (F : (inject_Z n
                       == inject_Z n / inject_Z fadeSamples
                          * inject_Z fadeSamples)%Q)
            by (field; lra).
          rewrite F, E. ring. }
        unfold Qeq in E'. simpl in E'. lia.
      + intros ->. reflexivity. }
  unfold fade.
  destruct (Z.ltb_spec i fadeSamples) as [Hin | Hin].
  - destruct (Hratio i) as [Hr Hz]; [lia|].
    split; [exact Hr | split; [exact Hz | lia]].
  - destruct (Z.ltb_spec (samples - fadeSamples) i) as [Hout | Hmid].
    + destruct (Hratio (samples - i)) as [Hr Hz]; [lia|].
      split; [exact Hr | split; [|lia]].
      rewrite Hz. lia.
    + split; [split; lra | split; [|reflexivity]].
      split; [intros E; vm_compute in E; discriminate | lia].
Qed.

Lemma fade_range_witness :
  (0 <= fade 2400 96 2399 <= 1)%Q.
Proof.
  apply (fade_range 2400 96 2399); lia.
Defined.

(** ** The peak search and the analyser *)

Section PeakSearch.

(** What the loop of [analyze] leaves in [maxValue] and [maxIndex],
    started at bin [i] with [maxValue = mv0] and [maxIndex = mi0]. *)
Lemma peakScan_spec_from (dataArray : list Z) :
  forall i mv0 mi0,
    mv0 <= fst (peakScan dataArray i mv0 mi0) /\
    Forall (fun v => v <= fst (peakScan dataArray i mv0 mi0)) dataArray /\
    ((fst (peakScan dataArray i mv0 mi0) = mv0 /\
      snd (peakScan dataArray i mv0 mi0) = mi0) \/
     (mv0 < fst (peakScan dataArray i mv0 mi0) /\
      i <= snd (peakScan dataArray i mv0 mi0) /\
      nth_error dataArray (Z.to_nat (snd (peakScan dataArray i mv0 mi0) - i))
        = Some (fst (peakScan dataArray i mv0 mi0)) /\
      forall j v,
        (j < Z.to_nat (snd (peakScan dataArray i mv0 mi0) - i))%nat ->
        nth_error dataArray j = Some v ->
        v < fst (peakScan dataArray i mv0 mi0))).
Proof.
  induction dataArray as [|v rest IH]; intros i mv0 mi0.
  - simpl. split; [lia | split; [constructor | left; auto]].
  - simpl peakScan.
    assert (Hlater : forall mv mi,
      v <= fst (peakScan rest (i + 1) mv mi) ->
      i + 1 <= snd (peakScan rest (i + 1) mv mi) ->
      nth_error rest (Z.to_nat (snd (peakScan rest (i + 1) mv mi) - (i + 1)))
        = Some (fst (peakScan rest (i + 1) mv mi)) ->
      (forall j w,
         (j < Z.to_nat (snd (peakScan rest (i + 1) mv mi) - (i + 1)))%nat ->
         nth_error rest j = Some w ->
         w < fst (peakScan rest (i + 1) mv mi)) ->
      v < fst (peakScan rest (i + 1) mv mi) ->
      nth_error (v :: rest) (Z.to_nat (snd (peakScan rest (i + 1) mv mi) - i))
        = Some (fst (peakScan rest (i + 1) mv mi)) /\
      forall j w,
        (j < Z.to_nat (snd (peakScan rest (i + 1) mv mi) - i))%nat ->
        nth_error (v :: rest) j = Some w ->
        w < fst (peakScan rest (i + 1) mv mi)).
    { intros mv mi _ Hidx Hnth Hbefore Hv.
      replace (Z.to_nat (snd (peakScan rest (i + 1) mv mi) - i))
        with (S (Z.to_nat (snd (peakScan rest (i + 1) mv mi) - (i + 1))))
        by lia.
      split; [exact Hnth|].
      intros [|j] w Hj Hw; simpl in Hw.
      - injection Hw as <-. exact Hv.
      - apply (Hbefore j w); [lia | exact Hw]. }
    destruct (Z.ltb_spec mv0 v) as [Hnew | Hold].
    + destruct (IH (i + 1) v i) as (Hge & Hall & [[Ev Ei] | (Hlt & Hidx & Hnth & Hbefore)]).
      * split; [lia | split; [constructor; [lia | exact Hall]|]].
        right. rewrite Ev, Ei. split; [lia | split; [lia|]].
        replace (Z.to_nat (i - i)) with 0%nat by lia.
        split; [reflexivity | intros j w Hj; lia].
      * split; [lia | split; [constructor; [lia | exact Hall]|]].
        right. split; [lia | split; [lia|]].
        apply Hlater; try assumption; lia.
    + destruct (IH (i + 1) mv0 mi0) as (Hge & Hall & [[Ev Ei] | (Hlt & Hidx & Hnth & Hbefore)]).
      * split; [lia | split; [constructor; [lia | exact Hall]|]].
        left. auto.
      * split; [lia | split; [constructor; [lia | exact Hall]|]].
        right. split; [lia | split; [lia|]].
        apply Hlater; try assumption; lia.
Qed.

Lemma peakScan_quiet (dataArray : list Z) :
  Forall (fun v => v <= SIGNAL_THRESHOLD) dataArray ->
  fst (peakScan dataArray 0 0 0) <= SIGNAL_THRESHOLD.
Proof.
  intros Hall. destruct (peakScan_value dataArray 0 0 0) as [E | Hin].
  - rewrite E. unfold SIGNAL_THRESHOLD. lia.
  - rewrite Forall_forall in Hall. apply Hall. exact Hin.
Qed.

End PeakSearch.

(** X8: the peak search of [analyze] returns the largest magnitude of
    the spectrum (0 when no bin is positive, with index 0) and the
    index of the first bin that holds it: no bin is larger, and every
    earlier bin is strictly smaller. *)
Theorem peakScan_first_maximum (dataArray : list Z) :
  0 <= fst (peakScan dataArray 0 0 0) /\
  Forall (fun v => v <= fst (peakScan dataArray 0 0 0)) dataArray /\
  ((fst (peakScan dataArray 0 0 0) = 0 /\ snd (peakScan dataArray 0 0 0) = 0) \/
   (0 < fst (peakScan dataArray 0 0 0) /\
    0 <= snd (peakScan dataArray 0 0 0) /\
    nth_error dataArray (Z.to_nat (snd (peakScan dataArray 0 0 0)))
      = Some (fst (peakScan dataArray 0 0 0)) /\
    forall j v,
      (j < Z.to_nat (snd (peakScan dataArray 0 0 0)))%nat ->
      nth_error dataArray j = Some v ->
      v < fst (peakScan dataArray 0 0 0))).
Proof.
  destruct (peakScan_spec_from dataArray 0 0 0) as (Hge & Hall & Hcase).
  split; [exact Hge | split; [exact Hall|]].
  rewrite Z.sub_0_r in Hcase. exact Hcase.
Qed.

(** X9: a spectrum in which no bin is above [SIGNAL_THRESHOLD] changes
    nothing and delivers nothing, whatever the state and the clock. *)
Theorem quiet_spectrum_ignored
    (sampleRate : Q) (st : ReceiverState) (dataArray : list Z) (now : Z) :
  Forall (fun v => v <= SIGNAL_THRESHOLD) dataArray ->
  analyze sampleRate st dataArray now = (st, None).
Proof.
  intros Hall. rewrite analyze_decide.
  apply decide_quiet. apply peakScan_quiet. exact Hall.
Qed.

Lemma quiet_spectrum_ignored_witness :
  analyze SAMPLE_RATE midFrameA [0; 12; 150; 149; 3] 2000 = (midFrameA, None).
Proof.
  apply (quiet_spectrum_ignored SAMPLE_RATE midFrameA [0; 12; 150; 149; 3] 2000).
  repeat (apply Forall_cons; [unfold SIGNAL_THRESHOLD; lia|]). apply Forall_nil.
Defined.

(** X10: with the [frequencyBinCount] bins of the analyser, the
    dominant frequency [analyze] computes is at least 0 and below half
    the sample rate; so at every sample rate up to 19674250 Hz the
    character it decodes passes the range test exactly when the rounded
    ordinal is in [32,126]: no reading is accepted through the 16-bit
    wrap of [String.fromCharCode]. *)
Theorem analyser_below_nyquist (sampleRate : Q) (dataArray : list Z) :
  (0 < sampleRate)%Q ->
  Z.of_nat (List.length dataArray) = frequencyBinCount ->
  (0 <= dominantFrequencyOf sampleRate dataArray < sampleRate / 2)%Q /\
  ((sampleRate <= 19674250)%Q ->
   (printable (frequencyToChar (dominantFrequencyOf sampleRate dataArray)) = true
    <-> inBand (dominantFrequencyOf sampleRate dataArray))).
Proof.
  intros Hpos Hlen. split.
  - apply dominantFrequency_range; assumption.
  - intros Hmax. apply analyser_reading_acceptance; [split|]; assumption.
Qed.

Lemma analyser_below_nyquist_witness :
  (0 <= dominantFrequencyOf SAMPLE_RATE (repeat 0%Z 2047 ++ [200%Z])
   < SAMPLE_RATE / 2)%Q.
Proof.
  apply (analyser_below_nyquist SAMPLE_RATE (repeat 0 2047 ++ [200])).
  - reflexivity.
  - reflexivity.
Defined.

(** X11: at every sample rate from 42000 Hz to 600000 Hz, each
    printable character has a bin of the analyser whose frequency
    decodes to it: the bin nearest to the frequency of the character is
    one of the [frequencyBinCount] bins and lies within half a step of
    that frequency. *)
Theorem every_symbol_has_a_bin (sampleRate : Q) (c : char16) :
  (42000 <= sampleRate <= 600000)%Q ->
  32 <= c <= 126 ->
  0 <= Math_round (charToFrequency c * inject_Z fftSize / sampleRate)
    < frequencyBinCount /\
  frequencyToChar
    (inject_Z (Math_round (charToFrequency c * inject_Z fftSize / sampleRate))
     * sampleRate / inject_Z fftSize)%Q = c.
Proof.
  intros [Hsr1 Hsr2] Hc.
  destruct (charToFrequency_band_bounds c Hc) as [Flo Fhi].
  change (inject_Z fftSize) with 4096%Q.
  set (f := charToFrequency c) in *.
  set (x := (f * 4096 / sampleRate)%Q).
  set (b := Math_round x).
  destruct (Math_round_bounds x) as [Blo Bhi]. fold b in Blo, Bhi.
  set (k := (sampleRate * (1 # 4096))%Q).
  assert (Hk : (0 < k)%Q) by (unfold k; lra).
  assert (Ex : (x * k == f)%Q) by (unfold x, k; field; lra).
  assert (Eg : (inject_Z b * sampleRate / 4096 == inject_Z b * k)%Q)
    by (unfold k; field).
  assert (P1 : ((inject_Z b - (1 # 2)) * k <= x * k)%Q)
    by (apply Qmult_le_compat_r; lra).
  assert (P2 : (x * k < (inject_Z b + (1 # 2)) * k)%Q)
    by (apply Qmult_lt_compat_r; lra).
  assert (E1 : ((inject_Z b - (1 # 2)) * k
                == inject_Z b * k - sampleRate * (1 # 8192))%Q)
    by (unfold k; ring).
  assert (E2 : ((inject_Z b + (1 # 2)) * k
                == inject_Z b * k + sampleRate * (1 # 8192))%Q)
    by (unfold k; ring).
  rewrite E1, Ex in P1. rewrite E2, Ex in P2.
  assert (Hx1 : (0 < x)%Q).
  { unfold x. apply Qlt_shift_div_l; lra. }
  assert (Hx2 : (x < 2047)%Q).
  { unfold x. apply Qlt_shift_div_r; lra. }
  split.
  - assert (H1 : (inject_Z (-1) < inject_Z b)%Q).
    { change (inject_Z (-1)) with (-1 # 1)%Q. lra. }
    assert (H2 : (inject_Z b < inject_Z 2048)%Q).
    { change (inject_Z 2048) with 2048%Q. lra. }
    rewrite <- Zlt_Qlt in H1, H2.
    change frequencyBinCount with 2048. lia.
  - unfold frequencyToChar, fromCharCode.
    rewrite (roundedOrdinal_window c).
    + apply ToUint16_small. lia.
    + fold f. rewrite Eg. split; lra.
Qed.

Lemma every_symbol_has_a_bin_witness :
  frequencyToChar
    (inject_Z (Math_round (charToFrequency 72%Z * inject_Z fftSize / 44100))
     * 44100 / inject_Z fftSize)%Q = 72.
Proof.
  apply (every_symbol_has_a_bin 44100 72).
  - split; discriminate.
  - lia.
Defined.

(** ** The listening loop *)

Section Loop.

Lemma analyze_tickOf (sampleRate : Q) (st : ReceiverState)
    (dataArray : list Z) (now : Z) :
  analyze sampleRate st dataArray now = step st (tickOf sampleRate dataArray now).
Proof. apply analyze_decide. Qed.

Lemma runLoop_listening (sampleRate : Q) (frames : list (list Z * Z)) :
  forall st,
    runLoop sampleRate
      (mkListener (mkCodec true true) st true) (framesAsEvents frames)
    = (mkListener (mkCodec true true)
         (finalState st (ticksOf sampleRate frames)) true,
       emitted st (ticksOf sampleRate frames)).
Proof.
  induction frames as [|[dataArray now] rest IH]; intros st; [reflexivity|].
  simpl. rewrite analyze_tickOf.
  rewrite finalState_cons, emitted_cons.
  destruct (step st (tickOf sampleRate dataArray now)) as [st1 ev].
  simpl. rewrite IH. reflexivity.
Qed.

Lemma runLoop_stopped (sampleRate : Q) (events : list Event) :
  forall l,
    analyser (codec l) = false ->
    snd (runLoop sampleRate l events) = [] /\
    closure (fst (runLoop sampleRate l events)) = closure l /\
    analyser (codec (fst (runLoop sampleRate l events))) = false.
Proof.
  induction events as [|e rest IH]; intros l Hnull; [simpl; auto|].
  assert (Hstep : snd (onEvent sampleRate l e) = None /\
                  closure (fst (onEvent sampleRate l e)) = closure l /\
                  analyser (codec (fst (onEvent sampleRate l e))) = false).
  { destruct e as [dataArray now|]; simpl.
    - rewrite Hnull. destruct (scheduled l); simpl; auto.
    - auto. }
  destruct Hstep as (Hev & Hcl & Hnull1).
  simpl. destruct (onEvent sampleRate l e) as [l1 ev]. simpl in *.
  destruct (IH l1 Hnull1) as (Hevs & Hcl2 & Hnull2).
  destruct (runLoop sampleRate l1 rest) as [l2 evs]. simpl in *.
  subst ev evs. rewrite Hcl2, Hcl. auto.
Qed.

End Loop.

(** X12: while the listener runs, the loop of [startListening] is the
    receiver state machine over the readings of the spectra: after any
    number of animation frames the closure variables are the state, and
    the frames delivered on [decoder$] are the frames, that the ticks
    taken from the spectra give from the initial state, in the same
    order, and the next [analyze] is scheduled. *)
Theorem loop_is_receiver
    (sampleRate : Q) (t0 : Z) (frames : list (list Z * Z)) :
  snd (runLoop sampleRate (startedListener t0) (framesAsEvents frames))
    = emitted (initialState t0) (ticksOf sampleRate frames) /\
  closure (fst (runLoop sampleRate (startedListener t0) (framesAsEvents frames)))
    = finalState (initialState t0) (ticksOf sampleRate frames) /\
  scheduled (fst (runLoop sampleRate (startedListener t0) (framesAsEvents frames)))
    = true.
Proof.
  unfold startedListener. rewrite runLoop_listening. simpl. auto.
Qed.

(** X13: once [stopListening] has been called, nothing is delivered any
    more and the closure variables stay as they are, whatever spectra
    and further [stopListening] calls follow: the scheduled [analyze]
    fails on the [null] analyser and schedules nothing. *)
Theorem nothing_after_stop
    (sampleRate : Q) (l : Listener) (events : list Event) :
  snd (runLoop sampleRate l (StopListening :: events)) = [] /\
  closure (fst (runLoop sampleRate l (StopListening :: events))) = closure l /\
  getAnalyser (codec (fst (runLoop sampleRate l (StopListening :: events))))
    = false.
Proof.
  simpl.
  destruct (runLoop_stopped sampleRate events
              (mkListener (mkCodec false false) (closure l) (scheduled l))
              eq_refl) as (Hev & Hcl & Hnull).
  destruct (runLoop sampleRate _ events) as [l2 evs]. simpl in *.
  unfold getAnalyser. auto.
Qed.

(** ** Invariants of the receiver *)

Section ReceiverInvariants.

(** The four things a tick can do. *)
Lemma step_cases (st : ReceiverState) (k : Tick) :
  step st k = (st, None) \/
  (isLoudStartMarker k = true /\
   step st k =
     (mkState true [] (lastFrequency st) (lastFrequencyTime st), None)) \/
  (isLoudEndMarker k = true /\
   step st k =
     (mkState false (receivedText st) (lastFrequency st) (lastFrequencyTime st),
      if truthy (receivedText st) then Some (receivedText st) else None)) \/
  (isLoudStartMarker k = false /\ isLoudEndMarker k = false /\
   isReceiving st = true /\
   printable (frequencyToChar (tick_frequency k)) = true /\
   40 < tick_time k - lastFrequencyTime st /\
   step st k =
     (mkState true (receivedText st ++ [frequencyToChar (tick_frequency k)])
        (tick_frequency k) (tick_time k), None)).
Proof.
  unfold step, decide, isLoudStartMarker, isLoudEndMarker.
  destruct (SIGNAL_THRESHOLD <? tick_magnitude k); [|left; reflexivity].
  destruct (isStartMarker (tick_frequency k)) eqn:Hs;
    [right; left; auto|].
  destruct (isEndMarker (tick_frequency k)) eqn:He;
    [right; right; left; auto|].
  destruct (isReceiving st) eqn:Hr; [|left; reflexivity].
  destruct (ltb FREQUENCY_TOLERANCE _); [|left; reflexivity].
  destruct (ltb (CHAR_DURATION * 1000 * (8 # 10)) _) eqn:Ht;
    [|left; reflexivity].
  destruct (printable _) eqn:Hp; [|left; reflexivity].
  right; right; right. simpl. apply timeGuard_iff in Ht. auto 10.
Qed.

Lemma printableText_snoc (text : jsstring) (c : char16) :
  printableText text -> printable c = true -> printableText (text ++ [c]).
Proof.
  intros Ht Hc. apply Forall_app. split; [exact Ht|].
  apply Forall_cons; [|apply Forall_nil].
  apply printable_iff in Hc. exact Hc.
Qed.

Lemma step_keeps_printable (st : ReceiverState) (k : Tick) :
  printableText (receivedText st) ->
  printableText (receivedText (fst (step st k))).
Proof.
  intros Hp.
  destruct (step_cases st k)
    as [E | [[_ E] | [[_ E] | (_ & _ & _ & Hc & _ & E)]]];
    rewrite E; simpl; try assumption.
  - constructor.
  - apply printableText_snoc; assumption.
Qed.

Lemma step_delivers_buffer (st : ReceiverState) (k : Tick) (frame : jsstring) :
  snd (step st k) = Some frame ->
  frame = receivedText st /\ frame <> [] /\ isLoudEndMarker k = true.
Proof.
  destruct (step_cases st k)
    as [E | [[_ E] | [[Hend E] | (_ & _ & _ & _ & _ & E)]]];
    rewrite E; simpl; try discriminate.
  destruct (truthy (receivedText st)) eqn:Ht; [|discriminate].
  intros H. injection H as <-.
  apply truthy_true in Ht. auto.
Qed.

Lemma reachable_printable (st : ReceiverState) :
  reachable st -> printableText (receivedText st).
Proof.
  induction 1 as [t0 | st k _ IH].
  - constructor.
  - apply step_keeps_printable. exact IH.
Qed.

Lemma idle_step (st : ReceiverState) (k : Tick) :
  isReceiving st = false -> receivedText st = [] ->
  isLoudStartMarker k = false ->
  step st k = (st, None).
Proof.
  intros Hr Hbuf Hns.
  destruct (step_cases st k)
    as [E | [[Hs _] | [[_ E] | (_ & _ & Hr' & _)]]].
  - exact E.
  - congruence.
  - rewrite E, Hbuf. simpl. destruct st as [r b lf lt]. simpl in *.
    subst. reflexivity.
  - congruence.
Qed.

End ReceiverInvariants.

(** X14: a receiver that is not receiving and whose buffer is empty,
    as it is when [startListening] has just run, stays exactly as it is
    and delivers nothing as long as no loud Start-Marker tick comes,
    whatever symbol and End-Marker readings it sees. *)
Theorem nothing_without_start (st : ReceiverState) (ticks : list Tick) :
  isReceiving st = false ->
  receivedText st = [] ->
  Forall (fun k => isLoudStartMarker k = false) ticks ->
  listen st ticks = (st, []).
Proof.
  intros Hr Hbuf Hall.
  induction Hall as [|k rest Hk _ IH]; [reflexivity|].
  simpl. rewrite (idle_step st k Hr Hbuf Hk), IH. reflexivity.
Qed.

Lemma nothing_without_start_witness :
  listen (initialState 0)
    [ mkTick (charToFrequency 72%Z) 200 1050;
      mkTick (charToFrequency 73%Z) 200 1100;
      mkTick 1600 200 1150 ]
  = (initialState 0, []).
Proof.
  apply (nothing_without_start (initialState 0)).
  - reflexivity.
  - reflexivity.
  - repeat constructor.
Defined.

(** X15: every frame the receiver delivers, from any state it can
    reach, is a non-empty text whose character codes all lie in
    [32,126]. *)
Theorem delivered_frames_printable (st : ReceiverState) (ticks : list Tick) :
  reachable st ->
  Forall (fun frame => frame <> [] /\ printableText frame) (emitted st ticks).
Proof.
  revert st. induction ticks as [|k rest IH]; intros st Hst.
  - constructor.
  - rewrite emitted_cons.
    pose proof (IH _ (reachable_step st k Hst)) as Hrest.
    destruct (snd (step st k)) as [frame|] eqn:Hev; [|exact Hrest].
    apply Forall_cons; [|exact Hrest].
    destruct (step_delivers_buffer st k frame Hev) as (-> & Hne & _).
    split; [exact Hne | apply reachable_printable; exact Hst].
Qed.

Lemma delivered_frames_printable_witness :
  Forall (fun frame => frame <> [] /\ printableText frame)
         (emitted afterL frameHI).
Proof.
  apply (delivered_frames_printable afterL frameHI).
  apply reachable_finalState, reachable_init.
Defined.

(** X16: frames are delivered on loud End-Marker ticks only: the number
    of frames delivered is at most the number of such ticks, from any
    state. *)
Theorem frames_only_on_end_markers (st : ReceiverState) (ticks : list Tick) :
  (List.length (emitted st ticks)
   <= List.length (filter isLoudEndMarker ticks))%nat.
Proof.
  revert st. induction ticks as [|k rest IH]; intros st; [apply le_n|].
  rewrite emitted_cons. simpl filter.
  specialize (IH (fst (step st k))).
  destruct (snd (step st k)) as [frame|] eqn:Hev.
  - destruct (step_delivers_buffer st k frame Hev) as (_ & _ & Hend).
    rewrite Hend. simpl. lia.
  - destruct (isLoudEndMarker k); simpl; lia.
Qed.

(** X17: in the 40 ms that follow the acceptance of a symbol no symbol
    is accepted: over ticks whose clock is at most 40 ms after the last
    acceptance, the last accepted frequency and time stay as they are
    and the buffer is what it was or, after a Start Marker, empty. *)
Theorem no_symbol_within_gap (st : ReceiverState) (ticks : list Tick) :
  Forall (fun k => tick_time k - lastFrequencyTime st <= 40) ticks ->
  (lastFrequency (finalState st ticks) = lastFrequency st /\
   lastFrequencyTime (finalState st ticks) = lastFrequencyTime st) /\
  (receivedText (finalState st ticks) = receivedText st \/
   receivedText (finalState st ticks) = []).
Proof.
  revert st. induction ticks as [|k rest IH]; intros st Hall.
  - unfold finalState. simpl. auto.
  - inversion Hall as [|? ? Hk Hrest]; subst.
    rewrite finalState_cons.
    destruct (step_cases st k)
      as [E | [[_ E] | [[_ E] | (_ & _ & _ & _ & Hlate & _)]]];
      [rewrite E; simpl; apply IH; exact Hrest | | | lia].
    + rewrite E. simpl.
      destruct (IH (mkState true [] (lastFrequency st) (lastFrequencyTime st))
                  Hrest) as (Hlast & Hbuf).
      simpl in Hlast, Hbuf. split; [exact Hlast | right; tauto].
    + rewrite E. simpl.
      destruct (IH (mkState false (receivedText st) (lastFrequency st)
                      (lastFrequencyTime st)) Hrest) as (Hlast & Hbuf).
      simpl in Hlast, Hbuf. split; [exact Hlast | exact Hbuf].
Qed.

Lemma no_symbol_within_gap_witness :
  receivedText
    (finalState afterL [ mkTick (charToFrequency 77%Z) 200 1066;
                         mkTick (charToFrequency 78%Z) 200 1083 ])
    = receivedText afterL \/
  receivedText
    (finalState afterL [ mkTick (charToFrequency 77%Z) 200 1066;
                         mkTick (charToFrequency 78%Z) 200 1083 ])
    = [].
Proof.
  apply (no_symbol_within_gap afterL).
  repeat (apply Forall_cons; [vm_compute; discriminate|]). apply Forall_nil.
Defined.

(** X18: as long as no loud Start-Marker tick comes, the buffer only
    grows at its end, by at most one character per tick, and the
    characters added have codes in [32,126]. *)
Theorem buffer_grows_without_start (st : ReceiverState) (ticks : list Tick) :
  Forall (fun k => isLoudStartMarker k = false) ticks ->
  exists suffix,
    receivedText (finalState st ticks) = receivedText st ++ suffix /\
    (List.length suffix <= List.length ticks)%nat /\
    printableText suffix.
Proof.
  revert st. induction ticks as [|k rest IH]; intros st Hall.
  - exists []. unfold finalState. simpl. rewrite app_nil_r.
    split; [reflexivity | split; [apply le_n | constructor]].
  - inversion Hall as [|? ? Hk Hrest]; subst.
    rewrite finalState_cons.
    destruct (IH (fst (step st k)) Hrest) as (suffix & Hbuf & Hlen & Hpr).
    destruct (step_cases st k)
      as [E | [[Hs _] | [[_ E] | (_ & _ & _ & Hc & _ & E)]]];
      [ | congruence | | ]; rewrite E in Hbuf |- *; simpl in Hbuf |- *.
    + exists suffix. split; [exact Hbuf | split; [lia | exact Hpr]].
    + exists suffix. split; [exact Hbuf | split; [lia | exact Hpr]].
    + exists (frequencyToChar (tick_frequency k) :: suffix).
      rewrite <- app_assoc in Hbuf. simpl in Hbuf |- *.
      split; [exact Hbuf | split; [lia|]].
      apply Forall_cons; [apply printable_iff; exact Hc | exact Hpr].
Qed.

Lemma buffer_grows_without_start_witness :
  exists suffix,
    receivedText
      (finalState midFrameA [ mkTick (charToFrequency 66%Z) 200 1100;
                              mkTick 1600 200 1150 ])
      = receivedText midFrameA ++ suffix /\
    (List.length suffix <= 2)%nat /\
    printableText suffix.
Proof.
  apply (buffer_grows_without_start midFrameA
           [ mkTick (charToFrequency 66%Z) 200 1100; mkTick 1600 200 1150 ]).
  repeat constructor.
Defined.

(** ** Frames with repeated characters *)

Section Squeeze.

Lemma held_reading_inert (st : ReceiverState) (k : Tick) (p : char16) :
  32 <= p <= 126 -> loud k ->
  (tick_frequency k == charToFrequency p)%Q ->
  (lastFrequency st == charToFrequency p)%Q ->
  step st k = (st, None).
Proof.
  intros Hp Hloud Hk Hlast.
  assert (Hk' : (charToFrequency p == tick_frequency k)%Q)
    by (symmetry; exact Hk).
  destruct (inBand_not_marker _
              (inBand_comp _ _ Hk' (charToFrequency_inBand p Hp)))
    as [Hns Hne].
  unfold step. apply decide_held; try assumption.
  apply ltb_ge. unfold Math_abs, FREQUENCY_TOLERANCE.
  apply Qabs_Qle_condition. split; lra.
Qed.

(** The symbol ticks of a frame when the last accepted frequency is
    that of character [p]: a reading of the character accepted last is
    dropped, every other one is accepted. *)
Lemma listen_symbols_squeeze (cs : jsstring) :
  forall (ticks : list Tick) (st : ReceiverState) (p : char16) (prev : Z),
    isReceiving st = true ->
    Forall2 (fun k c => (tick_frequency k == charToFrequency c)%Q) ticks cs ->
    Forall loud ticks ->
    printableText cs ->
    32 <= p <= 126 ->
    (lastFrequency st == charToFrequency p)%Q ->
    lastFrequencyTime st <= prev ->
    spacedAfter prev ticks ->
    emitted st ticks = [] /\
    isReceiving (finalState st ticks) = true /\
    receivedText (finalState st ticks) = receivedText st ++ squeezeAfter p cs.
Proof.
  induction cs as [|c cs IH];
    intros ticks st p prev Hr Hmap Hloud Hpr Hp Hlast Hprev Hsp.
  - inversion Hmap; subst.
    unfold emitted, finalState. simpl. rewrite app_nil_r. auto.
  - inversion Hmap as [|k ? rest ? Hk Hmap']; subst.
    inversion Hloud as [|? ? Lk Hloud']; subst.
    inversion Hpr as [|? ? Pc Hpr']; subst.
    destruct Hsp as [Hgap Hsp]. apply acceptGap_iff in Hgap.
    unfold charCodeAt0 in Pc.
    rewrite emitted_cons, finalState_cons. simpl squeezeAfter.
    destruct (Z.eqb_spec c p) as [-> | Hne].
    + rewrite (held_reading_inert st k p Hp Lk Hk Hlast). simpl.
      apply (IH rest st p (tick_time k)); try assumption. lia.
    + assert (Hk' : (charToFrequency c == tick_frequency k)%Q)
        by (symmetry; exact Hk).
      assert (Hfar :
        (FREQUENCY_TOLERANCE < Qabs (tick_frequency k - lastFrequency st))%Q).
      { rewrite Hk, Hlast. apply far_distinct_chars. congruence. }
      assert (Hlate : lateEnough st k).
      { unfold lateEnough. apply acceptGap_iff. lia. }
      pose proof (accept_inBand st k Hr
                    (inBand_comp _ _ Hk' (charToFrequency_inBand c Pc))
                    Lk Hfar Hlate) as E.
      rewrite (frequencyToChar_comp _ _ Hk),
        (frequencyToChar_charToFrequency c Pc) in E.
      rewrite E. simpl.
      set (st1 := mkState true (receivedText st ++ [c])
                          (tick_frequency k) (tick_time k)).
      destruct (IH rest st1 c (tick_time k) eq_refl Hmap' Hloud' Hpr' Pc Hk
                  (Z.le_refl _) Hsp) as (Hem & Hrec & Hbuf).
      rewrite Hem, Hrec, Hbuf. unfold st1. simpl.
      rewrite <- app_assoc. auto.
Qed.

(** A frame whose first character is accepted. *)
Lemma frame_squeezed (sampleRate : Q) (T : jsstring) (ticks : list Tick)
    (st : ReceiverState) (c : char16) (rest : jsstring) :
  T = c :: rest ->
  printableText T ->
  readingsOf (encodeText sampleRate T) ticks ->
  wellTimed (lastFrequencyTime st) ticks ->
  (FREQUENCY_TOLERANCE < Qabs (charToFrequency c - lastFrequency st))%Q ->
  emitted st ticks = [squeeze T].
Proof.
  intros -> Hpr Hread Htime Hhead.
  destruct (readings_of_frame sampleRate _ ticks Hread)
    as (k0 & mid & kE & -> & Hstart & Hend & Hmap & Hloud).
  destruct Htime as [Ht0 Hsp].
  inversion Hmap as [|k1 ? mid' ? Hk1 Hmap']; subst.
  inversion Hloud as [|? ? L1 Hloud']; subst.
  inversion Hpr as [|? ? Pc Hpr']; subst. unfold charCodeAt0 in Pc.
  simpl in Hsp. destruct Hsp as [Hgap1 Hsp].
  rewrite emitted_cons, (step_startMarker _ k0 Hstart). simpl.
  set (st0 := mkState true [] (lastFrequency st) (lastFrequencyTime st)).
  assert (Hk1' : (charToFrequency c == tick_frequency k1)%Q)
    by (symmetry; exact Hk1).
  assert (Hfar :
    (FREQUENCY_TOLERANCE < Qabs (tick_frequency k1 - lastFrequency st0))%Q)
    by (unfold st0, lastFrequency at 1; rewrite Hk1; exact Hhead).
  assert (Hlate : lateEnough st0 k1).
  { unfold lateEnough, st0. simpl. apply acceptGap_iff.
    apply acceptGap_iff in Hgap1. lia. }
  pose proof (accept_inBand st0 k1 eq_refl
                (inBand_comp _ _ Hk1' (charToFrequency_inBand c Pc))
                L1 Hfar Hlate) as E.
  rewrite (frequencyToChar_comp _ _ Hk1),
    (frequencyToChar_charToFrequency c Pc) in E.
  rewrite emitted_cons, E. simpl.
  set (st1 := mkState true [c] (tick_frequency k1) (tick_time k1)).
  destruct (listen_symbols_squeeze rest mid' st1 c (tick_time k1) eq_refl
              Hmap' Hloud' Hpr' Pc Hk1 (Z.le_refl _)
              (spacedAfter_app _ _ _ Hsp)) as (Hem & Hrec & Hbuf).
  rewrite emitted_app, Hem. simpl.
  rewrite emitted_cons, (step_endMarker _ kE Hend). simpl.
  rewrite Hbuf. reflexivity.
Qed.

Lemma squeezeAfter_noRepeat (p : char16) (text : jsstring) :
  (match text with c :: _ => p <> c | [] => True end) ->
  noRepeat text -> squeezeAfter p text = text.
Proof.
  revert p. induction text as [|c rest IH]; intros p Hhead Hnr; [reflexivity|].
  simpl. destruct (Z.eqb_spec c p) as [-> | _]; [contradiction|].
  destruct Hnr as [Hnext Hnr]. f_equal. apply IH; assumption.
Qed.

(** A text without repeated neighbours is its own squeezed form. *)
Lemma squeeze_noRepeat (text : jsstring) : noRepeat text -> squeeze text = text.
Proof.
  destruct text as [|c rest]; [reflexivity|].
  intros [Hhead Hnr]. simpl. f_equal.
  apply squeezeAfter_noRepeat; [|exact Hnr].
  destruct rest; [trivial | exact Hhead].
Qed.

End Squeeze.

(** X19: for every non-empty text with character codes in [32,126],
    repeated characters included, the loud, well-spaced readings of the
    tones of [encodeText] make a freshly started receiver deliver exactly
    one frame: the text with every run of equal characters reduced to
    one character. *)
Theorem roundtrip_squeezes_runs
    (sampleRate : Q) (T : jsstring) (t0 : Z) (ticks : list Tick) :
  T <> [] ->
  printableText T ->
  readingsOf (encodeText sampleRate T) ticks ->
  wellTimed t0 ticks ->
  emitted (initialState t0) ticks = [squeeze T].
Proof.
  intros Hne Hpr Hread Htime.
  destruct T as [|c rest]; [contradiction|].
  apply (frame_squeezed sampleRate (c :: rest) ticks (initialState t0) c rest);
    try assumption; try reflexivity.
  inversion Hpr as [|? ? Pc _]; subst. unfold charCodeAt0 in Pc.
  apply far_from_silence. lia.
Qed.

Lemma roundtrip_squeezes_runs_witness :
  emitted (initialState 0) frameLL = [of_string "L"].
Proof.
  apply (roundtrip_squeezes_runs SAMPLE_RATE (of_string "LL") 0 frameLL).
  - discriminate.
  - unfold printableText, charCodeAt0. simpl.
    repeat (apply Forall_cons; [lia|]). apply Forall_nil.
  - split; [repeat constructor|].
    repeat constructor; unfold loud, SIGNAL_THRESHOLD; simpl; lia.
  - simpl. repeat split; try reflexivity. lia.
Defined.

(** X20: a frame that follows an accepted symbol.  When the last
    accepted frequency is that of character [p], as it still is after a
    frame that ended with [p], the readings of the tones of a text
    deliver the text squeezed as if [p] stood before it: a leading run
    of [p] is lost, and nothing is delivered when nothing is left. *)
Theorem frame_after_symbol
    (sampleRate : Q) (T : jsstring) (ticks : list Tick)
    (st : ReceiverState) (p : char16) :
  32 <= p <= 126 ->
  (lastFrequency st == charToFrequency p)%Q ->
  printableText T ->
  readingsOf (encodeText sampleRate T) ticks ->
  wellTimed (lastFrequencyTime st) ticks ->
  emitted st ticks =
    match squeezeAfter p T with
    | [] => []
    | c :: rest => [c :: rest]
    end.
Proof.
  intros Hp Hlast Hpr Hread Htime.
  destruct (readings_of_frame sampleRate T ticks Hread)
    as (k0 & mid & kE & -> & Hstart & Hend & Hmap & Hloud).
  destruct Htime as [Ht0 Hsp].
  rewrite emitted_cons, (step_startMarker _ k0 Hstart). simpl.
  set (st0 := mkState true [] (lastFrequency st) (lastFrequencyTime st)).
  destruct (listen_symbols_squeeze T mid st0 p (tick_time k0) eq_refl
              Hmap Hloud Hpr Hp Hlast Ht0 (spacedAfter_app _ _ _ Hsp))
    as (Hem & Hrec & Hbuf).
  rewrite emitted_app, Hem. simpl.
  rewrite emitted_cons, (step_endMarker _ kE Hend). simpl.
  rewrite Hbuf. simpl.
  destruct (squeezeAfter p T); reflexivity.
Qed.

Lemma frame_after_symbol_witness :
  emitted (finalState (initialState 0) frameHI)
    [ mkTick 1800 200 3000;
      mkTick (charToFrequency 73%Z) 200 3050;
      mkTick (charToFrequency 72%Z) 200 3100;
      mkTick 1600 200 3150 ]
  = [of_string "H"].
Proof.
  apply (frame_after_symbol SAMPLE_RATE (of_string "IH")
           [ mkTick 1800 200 3000;
             mkTick (charToFrequency 73%Z) 200 3050;
             mkTick (charToFrequency 72%Z) 200 3100;
             mkTick 1600 200 3150 ]
           (finalState (initialState 0) frameHI) 73).
  - lia.
  - reflexivity.
  - unfold printableText, charCodeAt0. simpl.
    repeat (apply Forall_cons; [lia|]). apply Forall_nil.
  - split; [repeat constructor|].
    repeat constructor; unfold loud, SIGNAL_THRESHOLD; simpl; lia.
  - split; [vm_compute; discriminate|].
    simpl. repeat split; try reflexivity.
Defined.

(** ** The caller *)

Section Caller.

Lemma trimStart_nil_iff (s : jsstring) :
  trimStart s = [] <-> Forall (fun c => isWhiteSpace c = true) s.
Proof.
  induction s as [|c rest IH]; simpl.
  - split; [constructor | reflexivity].
  - destruct (isWhiteSpace c) eqn:Hc.
    + rewrite IH. split.
      * intros H. constructor; assumption.
      * intros H. inversion H; assumption.
    + split; [discriminate|].
      intros H. inversion H; congruence.
Qed.

Lemma trimStart_head (s : jsstring) (c : char16) (rest : jsstring) :
  trimStart s = c :: rest -> isWhiteSpace c = false.
Proof.
  induction s as [|d s IH]; simpl; [discriminate|].
  destruct (isWhiteSpace d) eqn:Hd; [exact IH|].
  intros H. injection H as -> _. exact Hd.
Qed.

Lemma trim_nil_iff (s : jsstring) :
  trim s = [] <-> Forall (fun c => isWhiteSpace c = true) s.
Proof.
  unfold trim, trimEnd. split.
  - intros H.
    assert (H1 : trimStart (rev (trimStart s)) = []).
    { destruct (trimStart (rev (trimStart s))); [reflexivity|].
      apply (f_equal (@List.length _)) in H.
      rewrite List.length_rev in H. discriminate H. }
    apply trimStart_nil_iff in H1.
    destruct (trimStart s) as [|c rest] eqn:Hs.
    + apply trimStart_nil_iff. exact Hs.
    + apply trimStart_head in Hs.
      rewrite Forall_forall in H1.
      specialize (H1 c). rewrite <- in_rev in H1.
      rewrite H1 in Hs by (left; reflexivity). discriminate.
  - intros H. apply trimStart_nil_iff in H. rewrite H. reflexivity.
Qed.

End Caller.

(** X21: [handleSend] transmits exactly when the input has a character
    that is not white space.  An input of white space only (the empty
    input included) leaves the state as it is and plays nothing;
    otherwise the whole input, not trimmed, is appended to the message
    list and encoded, which plays at least three tones, and the input
    field is emptied. *)
Theorem handleSend_guard
    (sampleRate : Q) (timestamp : jsstring) (app : AppState) :
  (Forall (fun c => isWhiteSpace c = true) (inputText app) ->
   handleSend sampleRate timestamp app = (app, None)) /\
  (Exists (fun c => isWhiteSpace c = false) (inputText app) ->
   handleSend sampleRate timestamp app =
     (mkApp [] (messages app ++ [(inputText app, timestamp)]),
      Some (encodeText sampleRate (inputText app))) /\
   (3 <= List.length (encodeText sampleRate (inputText app)))%nat).
Proof.
  unfold handleSend. split.
  - intros H. apply trim_nil_iff in H. rewrite H. reflexivity.
  - intros H.
    assert (Hne : trim (inputText app) <> []).
    { intros E. apply trim_nil_iff in E.
      apply Exists_exists in H. destruct H as (c & Hin & Hc).
      rewrite Forall_forall in E. rewrite (E c Hin) in Hc. discriminate. }
    apply truthy_true in Hne. rewrite Hne. simpl. split; [reflexivity|].
    unfold encodeText, split_chars. simpl.
    rewrite List.length_app, List.length_map. simpl.
    apply Exists_exists in H. destruct H as (c & Hin & _).
    destruct (inputText app); [contradiction | simpl; lia].
Qed.

Lemma handleSend_guard_witness :
  handleSend SAMPLE_RATE (of_string "10:00:00")
    (mkApp (of_string "  ") [(of_string "HI", of_string "09:59:59")])
  = (mkApp (of_string "  ") [(of_string "HI", of_string "09:59:59")], None).
Proof.
  apply (handleSend_guard SAMPLE_RATE (of_string "10:00:00")
           (mkApp (of_string "  ") [(of_string "HI", of_string "09:59:59")])).
  repeat constructor.
Defined.

(** ** The Start Marker and the debounce variables *)

(** C4 on the code: the frame "HI" is received and then the frame "IH".
    The Start Marker of the second frame sets the receiving flag and
    empties the buffer, but the last accepted frequency and time stay
    those of the 'I' that ended the first frame (12950 Hz, 1100 ms)
    instead of going back to their initial values.  The reading of the
    leading 'I' is therefore taken for the tone accepted last and
    dropped, and the second frame arrives as "H". *)
Theorem startMarker_keeps_debounce_state :
  emitted (initialState 0) (frameHI ++ frameIH)
    = [of_string "HI"; of_string "H"] /\
  isReceiving
    (finalState (initialState 0) (frameHI ++ [mkTick 1800 200 3000])) = true /\
  receivedText
    (finalState (initialState 0) (frameHI ++ [mkTick 1800 200 3000])) = [] /\
  (lastFrequency
     (finalState (initialState 0) (frameHI ++ [mkTick 1800 200 3000]))
   == charToFrequency 73%Z)%Q /\
  lastFrequencyTime
    (finalState (initialState 0) (frameHI ++ [mkTick 1800 200 3000])) = 1100 /\
  ~ (lastFrequency
       (finalState (initialState 0) (frameHI ++ [mkTick 1800 200 3000]))
     == lastFrequency (initialState 0))%Q /\
  lastFrequencyTime
    (finalState (initialState 0) (frameHI ++ [mkTick 1800 200 3000]))
  <> lastFrequencyTime (initialState 0).
Proof.
  vm_compute. repeat split; discriminate.
Qed.

(** ** Symbol acceptance *)

Section Acceptance.

Lemma snoc_neq (l : jsstring) (c : char16) : l <> l ++ [c].
Proof.
  intros E. apply (f_equal (@List.length _)) in E.
  rewrite List.length_app in E. simpl in E. lia.
Qed.

Lemma nil_neq_snoc (l : jsstring) (c : char16) : [] <> l ++ [c].
Proof. apply app_cons_not_nil. Qed.

(** A tick is accepted as a symbol, that is, its character is appended
    to the buffer, exactly when every guard of [analyze] on the way to
    [receivedText += char] holds. *)
Lemma decide_appends_iff (st : ReceiverState) (f : Q) (m now : Z) :
  receivedText (fst (decide st f m now))
    = receivedText st ++ [frequencyToChar f] <->
  (SIGNAL_THRESHOLD <? m) = true /\
  isStartMarker f = false /\
  isEndMarker f = false /\
  isReceiving st = true /\
  ltb FREQUENCY_TOLERANCE (Math_abs (f - lastFrequency st)) = true /\
  ltb (CHAR_DURATION * 1000 * (8 # 10))%Q
      (inject_Z (now - lastFrequencyTime st)) = true /\
  printable (frequencyToChar f) = true.
Proof.
  unfold decide.
  destruct (SIGNAL_THRESHOLD <? m);
    [|simpl; split; [intros E; destruct (snoc_neq _ _ E) | intros (H & _); discriminate H]].
  destruct (isStartMarker f);
    [simpl; split; [intros E; destruct (nil_neq_snoc _ _ E)
                   | intros (_ & H & _); discriminate H]|].
  destruct (isEndMarker f);
    [simpl; split; [intros E; destruct (snoc_neq _ _ E)
                   | intros (_ & _ & H & _); discriminate H]|].
  destruct (isReceiving st);
    [|simpl; split; [intros E; destruct (snoc_neq _ _ E)
                    | intros (_ & _ & _ & H & _); discriminate H]].
  destruct (ltb FREQUENCY_TOLERANCE (Math_abs (f - lastFrequency st)));
    [|simpl; split; [intros E; destruct (snoc_neq _ _ E)
                    | intros (_ & _ & _ & _ & H & _); discriminate H]].
  simpl andb. cbv iota.
  destruct (ltb (CHAR_DURATION * 1000 * (8 # 10))
                (inject_Z (now - lastFrequencyTime st)));
    [|simpl; split; [intros E; destruct (snoc_neq _ _ E)
                    | intros (_ & _ & _ & _ & _ & H & _); discriminate H]].
  destruct (printable (frequencyToChar f));
    [|simpl; split; [intros E; destruct (snoc_neq _ _ E)
                    | intros (_ & _ & _ & _ & _ & _ & H); discriminate H]].
  simpl. split; [intros _; repeat split | intros _; reflexivity].
Qed.

(** With the range test replaced by the test on the rounded ordinal,
    for a frequency below the wrap. *)
Lemma decide_appends_inBand (st : ReceiverState) (f : Q) (m now : Z) :
  (0 <= f < 9837125)%Q ->
  (receivedText (fst (decide st f m now))
     = receivedText st ++ [frequencyToChar f] <->
   SIGNAL_THRESHOLD < m /\
   isReceiving st = true /\
   (FREQUENCY_TOLERANCE < Qabs (f - lastFrequency st))%Q /\
   40 < now - lastFrequencyTime st /\
   32 <= roundedOrdinal f <= 126).
Proof.
  intros [Hlo Hhi].
  assert (Hrange :
    printable (frequencyToChar f) = true <-> 32 <= roundedOrdinal f <= 126).
  { unfold frequencyToChar. apply printable_ordinal. split.
    - apply roundedOrdinal_lower. exact Hlo.
    - apply roundedOrdinal_upper. exact Hhi. }
  rewrite decide_appends_iff, Z.ltb_lt, farFrom_iff, timeGuard_iff, Hrange.
  split.
  - intros (H1 & _ & _ & H2 & H3 & H4 & H5). auto.
  - intros (H1 & H2 & H3 & H4 & H5).
    destruct (inBand_not_marker f H5) as [Hs He]. auto 10.
Qed.

Lemma marker_never_appended (st : ReceiverState) (f : Q) (m now : Z) :
  isStartMarker f = true \/ isEndMarker f = true ->
  receivedText (fst (decide st f m now))
    <> receivedText st ++ [frequencyToChar f].
Proof.
  intros Hmark E. apply decide_appends_iff in E.
  destruct E as (_ & Hs & He & _). destruct Hmark; congruence.
Qed.

End Acceptance.

(** C9: symbol acceptance in the receiver is the rounded ordinal lying
    in [32,126].  For every dominant frequency [analyze] computes (from
    a spectrum of [frequencyBinCount] bins, at a sample rate up to
    19674250 Hz), which is never negative: the character built by
    [String.fromCharCode] passes the [32,126] test exactly when the
    rounded ordinal is in [32,126], and [analyze] appends the character
    to the buffer exactly when the reading is loud, the receiver is
    receiving, the debounce and time guards pass and the rounded ordinal
    is in [32,126].  For every frequency of at least 0 Hz the rounded
    ordinal is at least -13, and a negative ordinal becomes a character
    code of at least 65523, which the range test rejects.  Neither
    marker frequency passes the range test, and a tick at a marker
    frequency is never appended to the buffer. *)
Theorem symbol_acceptance_is_ordinal_range
    (sampleRate : Q) (st : ReceiverState) (dataArray : list Z) (now : Z) :
  (0 < sampleRate <= 19674250)%Q ->
  Z.of_nat (List.length dataArray) = frequencyBinCount ->
  (0 <= dominantFrequencyOf sampleRate dataArray)%Q /\
  (printable (frequencyToChar (dominantFrequencyOf sampleRate dataArray)) = true
   <-> 32 <= roundedOrdinal (dominantFrequencyOf sampleRate dataArray) <= 126) /\
  (receivedText (fst (analyze sampleRate st dataArray now))
     = receivedText st
       ++ [frequencyToChar (dominantFrequencyOf sampleRate dataArray)]
   <->
   SIGNAL_THRESHOLD < fst (peakScan dataArray 0 0 0) /\
   isReceiving st = true /\
   (FREQUENCY_TOLERANCE
    < Qabs (dominantFrequencyOf sampleRate dataArray - lastFrequency st))%Q /\
   40 < now - lastFrequencyTime st /\
   32 <= roundedOrdinal (dominantFrequencyOf sampleRate dataArray) <= 126) /\
  (forall f : Q,
     (0 <= f)%Q ->
     -13 <= roundedOrdinal f /\
     (roundedOrdinal f < 0 ->
      65523 <= charCodeAt0 (frequencyToChar f) /\
      printable (frequencyToChar f) = false)) /\
  printable (frequencyToChar END_MARKER_FREQ) = false /\
  printable (frequencyToChar START_MARKER_FREQ) = false /\
  (forall (st' : ReceiverState) (m now' : Z),
     receivedText (fst (decide st' END_MARKER_FREQ m now'))
       <> receivedText st' ++ [frequencyToChar END_MARKER_FREQ] /\
     receivedText (fst (decide st' START_MARKER_FREQ m now'))
       <> receivedText st' ++ [frequencyToChar START_MARKER_FREQ]).
Proof.
  intros [Hpos Hmax] Hlen.
  destruct (dominantFrequency_range sampleRate dataArray Hpos Hlen)
    as [Flo Fhi].
  assert (Fwrap : (dominantFrequencyOf sampleRate dataArray < 9837125)%Q).
  { assert (E : (sampleRate / 2 == sampleRate * (1 # 2))%Q) by field.
    rewrite E in Fhi. lra. }
  split; [exact Flo|].
  split.
  { unfold frequencyToChar. apply printable_ordinal. split.
    - apply roundedOrdinal_lower. exact Flo.
    - apply roundedOrdinal_upper. exact Fwrap. }
  split.
  { rewrite analyze_decide. apply decide_appends_inBand.
    split; assumption. }
  split.
  { intros f Hf. pose proof (roundedOrdinal_lower f Hf) as Rlo.
    split; [exact Rlo|].
    intros Hneg.
    assert (E : frequencyToChar f = roundedOrdinal f + 65536).
    { unfold frequencyToChar, fromCharCode. apply ToUint16_negative. lia. }
    unfold charCodeAt0. rewrite E. split; [lia|].
    apply Bool.not_true_iff_false. rewrite printable_iff. lia. }
  split; [reflexivity|]. split; [reflexivity|].
  intros st' m now'. split.
  - apply marker_never_appended. right. reflexivity.
  - apply marker_never_appended. left. reflexivity.
Qed.

Lemma symbol_acceptance_is_ordinal_range_witness :
  receivedText
    (fst (analyze SAMPLE_RATE (mkState true [] 0 0)
            (repeat 0 1092 ++ [200] ++ repeat 0 955) 1050))
  = [] ++ [72].
Proof.
  destruct (symbol_acceptance_is_ordinal_range SAMPLE_RATE
              (mkState true [] 0 0)
              (repeat 0 1092 ++ [200] ++ repeat 0 955) 1050)
    as (_ & _ & Hacc & _).
  - split; [reflexivity | discriminate].
  - reflexivity.
  - apply Hacc. vm_compute. repeat split; discriminate.
Defined.

(** ** The frame of the empty text *)

Section EmptyText.

(** The buffer of a [CHAR_DURATION] tone: its sample count, and how
    long it lasts. *)
Lemma charTone_buffer (sampleRate frequency : Q) :
  (0 < sampleRate)%Q ->
  tone_samples (generateTone sampleRate frequency CHAR_DURATION)
    = Math_ceil (CHAR_DURATION * sampleRate) /\
  (CHAR_DURATION
   <= bufferDuration sampleRate
        (generateTone sampleRate frequency CHAR_DURATION)
   < CHAR_DURATION + 1 / sampleRate)%Q /\
  (forall n : Z,
     (CHAR_DURATION * sampleRate == inject_Z n)%Q ->
     (bufferDuration sampleRate
        (generateTone sampleRate frequency CHAR_DURATION)
      == CHAR_DURATION)%Q).
Proof.
  intros Hsr. split; [reflexivity|].
  unfold bufferDuration, generateTone, Math_ceil. simpl.
  destruct (Qceiling_bounds (CHAR_DURATION * sampleRate)) as [Hlo Hhi].
  split; [split|].
  - apply Qle_shift_div_l; assumption.
  - apply Qlt_shift_div_r; [assumption|].
    assert (E : ((CHAR_DURATION + 1 / sampleRate) * sampleRate
                 == CHAR_DURATION * sampleRate + 1)%Q)
      by (field; lra).
    rewrite E. exact Hhi.
  - intros n Hn.
    assert (Hc : Qceiling (CHAR_DURATION * sampleRate) = n).
    { rewrite (Qceiling_comp _ _ Hn). apply Qceiling_Z. }
    rewrite Hc, <- Hn. field. lra.
Qed.

End EmptyText.

(** C10, as the code has it: [encodeText] on the empty string plays
    exactly two tones, the 1800 Hz Start Marker and then the 1600 Hz End
    Marker.  Each is generated for [CHAR_DURATION]: its buffer has
    [ceil (CHAR_DURATION * sampleRate)] samples, so it lasts at least
    [CHAR_DURATION] and less than one sample period more, and exactly
    [CHAR_DURATION] when [CHAR_DURATION * sampleRate] is a whole number.
    The two readings of these tones make the receiver deliver nothing:
    from any state when both readings are above [SIGNAL_THRESHOLD], and
    whatever their magnitudes when the buffer is empty. *)
Theorem empty_text_two_markers
    (sampleRate : Q) (st : ReceiverState) (ticks : list Tick) :
  (0 < sampleRate)%Q ->
  Forall2 reads ticks (encodeText sampleRate []) ->
  Forall loud ticks \/ receivedText st = [] ->
  map tone_frequency (encodeText sampleRate [])
    = [START_MARKER_FREQ; END_MARKER_FREQ] /\
  Forall
    (fun t =>
       tone_duration t = CHAR_DURATION /\
       tone_samples t = Math_ceil (CHAR_DURATION * sampleRate) /\
       (CHAR_DURATION <= bufferDuration sampleRate t
        < CHAR_DURATION + 1 / sampleRate)%Q /\
       (forall n : Z,
          (CHAR_DURATION * sampleRate == inject_Z n)%Q ->
          (bufferDuration sampleRate t == CHAR_DURATION)%Q))
    (encodeText sampleRate []) /\
  List.length ticks = 2%nat /\
  emitted st ticks = [].
Proof.
  intros Hsr Hread Hcase.
  split; [reflexivity|]. split.
  - unfold encodeText, split_chars. simpl.
    destruct (charTone_buffer sampleRate START_MARKER_FREQ Hsr)
      as (S1 & B1 & X1).
    destruct (charTone_buffer sampleRate END_MARKER_FREQ Hsr)
      as (S2 & B2 & X2).
    repeat (apply Forall_cons; [auto|]). apply Forall_nil.
  - apply (empty_text_readings_silent sampleRate); assumption.
Qed.

Lemma empty_text_two_markers_witness :
  Forall
    (fun t =>
       tone_duration t = CHAR_DURATION /\
       tone_samples t = Math_ceil (CHAR_DURATION * SAMPLE_RATE) /\
       (CHAR_DURATION <= bufferDuration SAMPLE_RATE t
        < CHAR_DURATION + 1 / SAMPLE_RATE)%Q /\
       (forall n : Z,
          (CHAR_DURATION * SAMPLE_RATE == inject_Z n)%Q ->
          (bufferDuration SAMPLE_RATE t == CHAR_DURATION)%Q))
    (encodeText SAMPLE_RATE []) /\
  List.length frameEmpty = 2%nat /\
  emitted (finalState (initialState 0) frameHI) frameEmpty = [].
Proof.
  apply (empty_text_two_markers SAMPLE_RATE
           (finalState (initialState 0) frameHI) frameEmpty).
  - reflexivity.
  - repeat constructor.
  - left. repeat constructor; unfold loud, SIGNAL_THRESHOLD; simpl; lia.
Defined.

(** C10 as stated fails at a sample rate for which
    [CHAR_DURATION * sampleRate] is not whole: at 22050 Hz each of the
    two buffers has 1103 samples and lasts 1103/22050 s, which is more
    than [CHAR_DURATION]. *)
Lemma empty_text_tones_longer_at_22050 :
  map tone_frequency (encodeText 22050 [])
    = [START_MARKER_FREQ; END_MARKER_FREQ] /\
  map tone_samples (encodeText 22050 []) = [1103; 1103] /\
  Forall
    (fun t =>
       (bufferDuration 22050 t == 1103 # 22050)%Q /\
       (CHAR_DURATION < bufferDuration 22050 t)%Q /\
       ~ (bufferDuration 22050 t == CHAR_DURATION)%Q)
    (encodeText 22050 []).
Proof.
  split; [reflexivity|]. split; [reflexivity|].
  repeat (apply Forall_cons;
          [split; [reflexivity | split; [reflexivity | discriminate]]|]).
  apply Forall_nil.
Qed.
